(** * mow-demo: the authoritative server simulation

    A shallow embedding of the server side of the game: [Player]
    (input buffering, movement against the tile map, leveling),
    [MapLoader] (the tile-collision query), [Enemy] (the behaviour
    cycle, targeting, damage) and the combat step of the server tick.

    Numbers.  TypeScript's [number] is modelled by the type the data
    model gives the field: positions, velocities, timers and elapsed
    time are real numbers ([R], the idealisation of IEEE doubles without
    rounding, NaN or infinities); level, exp, health, tile coordinates
    and tile ids are integers ([Z]).  Objects used as tables
    ([{ [key: string]: T }]) are association lists in the order in which
    [for ... in] and [Object.values] enumerate them (insertion order for
    the uuid keys used here). *)

From Stdlib Require Import Reals Lra Lia ZArith List String Bool.
Import ListNotations.

Local Open Scope string_scope.

(** ** JavaScript truthiness of optional fields *)

(** [if (input.left)] on a [Partial<{left: boolean}>]. *)
Definition truthy_flag (o : option bool) : bool :=
  match o with
  | Some b => b
  | None => false
  end.

(** [if (s)] on an optional string: [undefined], [null] and the empty
    string are falsy. *)
Definition truthy_str (o : option string) : bool :=
  match o with
  | Some s => negb (s =? "")
  | None => false
  end.

(** [o === "attack"]. *)
Definition is_attack (o : option string) : bool :=
  match o with
  | Some s => s =? "attack"
  | None => false
  end.

(** [Math.floor]. *)
Definition Math_floor (r : R) : Z := Int_part r.

(** [{ x: number; y: number }]. *)
Module Vec2.
Record t : Type := mk { x : R; y : R }.
Definition zero : t := mk 0 0.
End Vec2.

(** [table[key]] on an object used as a table. *)
Fixpoint lookup {A : Type} (key : string) (table : list (string * A)) : option A :=
  match table with
  | [] => None
  | (k, v) :: rest => if k =? key then Some v else lookup key rest
  end.

(** The object stored under [key] after it was mutated in place. *)
Fixpoint store {A : Type} (key : string) (v : A) (table : list (string * A))
  : list (string * A) :=
  match table with
  | [] => []
  | (k, w) :: rest =>
      if k =? key then (k, v) :: rest else (k, w) :: store key v rest
  end.

(** [delete table[key]]. *)
Definition delete {A : Type} (key : string) (table : list (string * A))
  : list (string * A) :=
  filter (fun kv => negb (fst kv =? key)) table.

(** ** MapLoader.ts *)

Module MapLoader.

(** One entry of [Tile.properties]; [value] is the truthiness of the
    JSON value. *)
Record Property : Type := mkProperty { name : string; value : bool }.

Record Tile : Type := mkTile {
  id : Z;
  properties : option (list Property)
}.

Record Tileset : Type := mkTileset {
  firstgid : Z;
  tiles : option (list Tile)
}.

Record Layer : Type := mkLayer {
  type : string;
  data : list Z;
  layer_height : Z;
  layer_width : Z
}.

Record Tilemap : Type := mkTilemap {
  layers : list Layer;
  tilesets : list Tileset;
  height : Z;
  width : Z
}.

Record t : Type := mk {
  map : Tilemap;
  collidableTiles : list Z
}.

(** [tile.properties?.some(prop => prop.name === "collideable" && prop.value)] *)
Definition tile_collideable (tile : Tile) : bool :=
  match properties tile with
  | Some props =>
      existsb (fun prop => (name prop =? "collideable") && value prop) props
  | None => false
  end.

(** The [Set<number>] built by [findCollidableTiles], as the list of
    its elements. *)
Definition findCollidableTiles (m : Tilemap) : list Z :=
  flat_map
    (fun tileset =>
       flat_map
         (fun tile =>
            if tile_collideable tile
            then [(id tile + firstgid tileset)%Z]
            else [])
         (match tiles tileset with Some ts => ts | None => [] end))
    (tilesets m).

(** The constructor, after the map file was read and parsed. *)
Definition load (m : Tilemap) : t := mk m (findCollidableTiles m).

(** [this.collidableTiles.has(tile)]; [tile] is [undefined] when the
    index is outside [layer.data]. *)
Definition has (s : list Z) (tile : option Z) : bool :=
  match tile with
  | Some v => existsb (Z.eqb v) s
  | None => false
  end.

(** [layer.data[index]]. *)
Definition data_at (layer : Layer) (index : Z) : option Z :=
  if (index <? 0)%Z then None else nth_error (data layer) (Z.to_nat index).

Definition out_of_bounds (layer : Layer) (x y : Z) : bool :=
  (x <? 0)%Z || (layer_width layer <=? x)%Z
  || (y <? 0)%Z || (layer_height layer <=? y)%Z.

(** The body of the loop of [isTileBlocked], over the layers still to
    visit. *)
Fixpoint blocked_in (collidable : list Z) (ls : list Layer) (x y : Z) : bool :=
  match ls with
  | [] => false
  | layer :: rest =>
      if negb (type layer =? "tilelayer") then blocked_in collidable rest x y
      else if out_of_bounds layer x y then true
      else
        let index := (y * layer_width layer + x)%Z in
        if has collidable (data_at layer index) then true
        else blocked_in collidable rest x y
  end.

Definition isTileBlocked (ml : t) (x y : Z) : bool :=
  blocked_in (collidableTiles ml) (layers (map ml)) x y.

End MapLoader.

(** ** server.ts: constants *)

Definition TICK_RATE : R := 20.

(** ** entities/Player.ts *)

(** The payload of a [playerInput] message: any subset of the fields. *)
Module PlayerInput.
Record t : Type := mk {
  left : option bool;
  right : option bool;
  up : option bool;
  down : option bool;
  direction : option string;
  action : option string
}.

(** [{}] *)
Definition empty : t := mk None None None None None None.

(** [input.action = a], on the message object itself. *)
Definition with_action (a : option string) (i : t) : t :=
  mk (left i) (right i) (up i) (down i) (direction i) a.
End PlayerInput.

Module Player.

Record t : Type := mk {
  playerId : string;
  position : Vec2.t;
  level : Z;
  exp : Z;
  health : Z;
  socketId : string;
  direction : string;
  action : string;
  isAlive : bool;
  speed : R;
  currentInput : PlayerInput.t
}.

(** [new Player(data)]: [isAlive = true], [speed = 60] and an empty
    input buffer are the field initialisers. *)
Definition new (playerId : string) (position : Vec2.t) (level exp health : Z)
    (socketId direction action : string) : t :=
  mk playerId position level exp health socketId direction action
     true 60 PlayerInput.empty.

Definition with_position (v : Vec2.t) (p : t) : t :=
  mk (playerId p) v (level p) (exp p) (health p) (socketId p)
     (direction p) (action p) (isAlive p) (speed p) (currentInput p).

Definition with_progress (l e : Z) (p : t) : t :=
  mk (playerId p) (position p) l e (health p) (socketId p)
     (direction p) (action p) (isAlive p) (speed p) (currentInput p).

Definition with_direction (d : string) (p : t) : t :=
  mk (playerId p) (position p) (level p) (exp p) (health p) (socketId p)
     d (action p) (isAlive p) (speed p) (currentInput p).

Definition with_action (a : string) (p : t) : t :=
  mk (playerId p) (position p) (level p) (exp p) (health p) (socketId p)
     (direction p) a (isAlive p) (speed p) (currentInput p).

Definition with_currentInput (i : PlayerInput.t) (p : t) : t :=
  mk (playerId p) (position p) (level p) (exp p) (health p) (socketId p)
     (direction p) (action p) (isAlive p) (speed p) i.

(** [setInput(input)]: the message replaces the buffer; a buffered
    "attack" is written back into it. *)
Definition setInput (input : PlayerInput.t) (p : t) : t :=
  let prev := currentInput p in
  let p := with_currentInput input p in
  if is_attack (PlayerInput.action prev)
  then with_currentInput (PlayerInput.with_action (Some "attack") (currentInput p)) p
  else p.

Definition isAttacking (p : t) : bool :=
  is_attack (PlayerInput.action (currentInput p)).

(** The candidate position of [processInput]. *)
Definition newPosition (p : t) : Vec2.t :=
  let input := currentInput p in
  let step := (speed p / TICK_RATE)%R in
  let nx := Vec2.x (position p) in
  let ny := Vec2.y (position p) in
  let nx := if truthy_flag (PlayerInput.left input) then (nx - step)%R else nx in
  let nx := if truthy_flag (PlayerInput.right input) then (nx + step)%R else nx in
  let ny := if truthy_flag (PlayerInput.up input) then (ny - step)%R else ny in
  let ny := if truthy_flag (PlayerInput.down input) then (ny + step)%R else ny in
  Vec2.mk nx ny.

Definition spriteSize : R := 32.
Definition halfSpriteSize : R := (spriteSize / 2)%R.

(** The tile under the collision probe of a position:
    [(floor((x - 2) / 16), floor((y + halfSpriteSize) / 16))]. *)
Definition probeTile (pos : Vec2.t) : Z * Z :=
  let collisionX := (Vec2.x pos - 2)%R in
  let collisionY := (Vec2.y pos + halfSpriteSize)%R in
  (Math_floor (collisionX / 16), Math_floor (collisionY / 16)).

Definition processInput (mapLoader : MapLoader.t) (p : t) : t :=
  let input := currentInput p in
  let newPosition := newPosition p in
  let '(tx, ty) := probeTile newPosition in
  let p := if negb (MapLoader.isTileBlocked mapLoader tx ty)
           then with_position newPosition p else p in
  let p := match PlayerInput.direction input with
           | Some d => if truthy_str (Some d) then with_direction d p else p
           | None => p
           end in
  let p := match PlayerInput.action input with
           | Some a => if truthy_str (Some a) then with_action a p else p
           | None => p
           end in
  with_currentInput PlayerInput.empty p.

(** [gainExp(amount)]: the result and the player afterwards. *)
Definition gainExp (amount : Z) (p : t) : bool * t :=
  let p := with_progress (level p) (exp p + amount)%Z p in
  if (level p * 100 <=? exp p)%Z
  then (true, with_progress (level p + 1)%Z (exp p - level p * 100)%Z p)
  else (false, p).

End Player.

(** ** Comparisons and [Math] functions on numbers *)

Definition Rltb (a b : R) : bool := if Rlt_dec a b then true else false.
Definition Rleb (a b : R) : bool := if Rle_dec a b then true else false.

(** [d < m] where [m] starts as [Infinity] ([None]). *)
Definition below (d : R) (m : option R) : bool :=
  match m with
  | None => true
  | Some v => Rltb d v
  end.

(** [Math.atan2(y, x)]. *)
Definition Math_atan2 (y x : R) : R :=
  if Rltb 0 x then atan (y / x)
  else if Rltb x 0 then
    (if Rleb 0 y then atan (y / x) + PI else atan (y / x) - PI)%R
  else if Rltb 0 y then (PI / 2)%R
  else if Rltb y 0 then (- (PI / 2))%R
  else 0%R.

(** [getDistance(pos1, pos2)], the same function in Enemy.ts and
    server.ts. *)
Definition getDistance (pos1 pos2 : Vec2.t) : R :=
  let dx := (Vec2.x pos1 - Vec2.x pos2)%R in
  let dy := (Vec2.y pos1 - Vec2.y pos2)%R in
  sqrt (dx * dx + dy * dy).

(** ** entities/Enemy.ts *)

Inductive ActionType : Type := hop | longJump | idle | confused.

Module Enemy.

Record t : Type := mk {
  id : string;
  position : Vec2.t;
  health : Z;
  alive : bool;
  velocity : Vec2.t;
  direction : string;
  action : ActionType;
  targetPlayerId : option string;
  lastMovement : option ActionType;
  currentActionIndex : Z;
  actionTimer : R
}.

Definition actionCycle : list ActionType := [hop; idle; longJump; idle; idle].

Definition HOP_DISTANCE : R := 10.
Definition LONG_JUMP_DISTANCE : R := 60.
Definition PAUSE_DURATION : R := 1000.
Definition MOVE_DURATION : R := 1000.
Definition LONG_JUMP_DURATION : R := 600.

(** [new Enemy()], with the uuid and the random position it drew. *)
Definition new (id : string) (position : Vec2.t) : t :=
  mk id position 30 true Vec2.zero "down" idle None None 0 0.

Definition with_position (v : Vec2.t) (e : t) : t :=
  mk (id e) v (health e) (alive e) (velocity e) (direction e) (action e)
     (targetPlayerId e) (lastMovement e) (currentActionIndex e) (actionTimer e).

Definition with_health (h : Z) (e : t) : t :=
  mk (id e) (position e) h (alive e) (velocity e) (direction e) (action e)
     (targetPlayerId e) (lastMovement e) (currentActionIndex e) (actionTimer e).

Definition with_alive (b : bool) (e : t) : t :=
  mk (id e) (position e) (health e) b (velocity e) (direction e) (action e)
     (targetPlayerId e) (lastMovement e) (currentActionIndex e) (actionTimer e).

Definition with_velocity (v : Vec2.t) (e : t) : t :=
  mk (id e) (position e) (health e) (alive e) v (direction e) (action e)
     (targetPlayerId e) (lastMovement e) (currentActionIndex e) (actionTimer e).

Definition with_direction (d : string) (e : t) : t :=
  mk (id e) (position e) (health e) (alive e) (velocity e) d (action e)
     (targetPlayerId e) (lastMovement e) (currentActionIndex e) (actionTimer e).

Definition with_action (a : ActionType) (e : t) : t :=
  mk (id e) (position e) (health e) (alive e) (velocity e) (direction e) a
     (targetPlayerId e) (lastMovement e) (currentActionIndex e) (actionTimer e).

Definition with_targetPlayerId (o : option string) (e : t) : t :=
  mk (id e) (position e) (health e) (alive e) (velocity e) (direction e) (action e)
     o (lastMovement e) (currentActionIndex e) (actionTimer e).

Definition with_currentActionIndex (i : Z) (e : t) : t :=
  mk (id e) (position e) (health e) (alive e) (velocity e) (direction e) (action e)
     (targetPlayerId e) (lastMovement e) i (actionTimer e).

Definition with_actionTimer (r : R) (e : t) : t :=
  mk (id e) (position e) (health e) (alive e) (velocity e) (direction e) (action e)
     (targetPlayerId e) (lastMovement e) (currentActionIndex e) r.

(** [this.actionCycle[i]]; [undefined] outside the array. *)
Definition cycle_at (i : Z) : option ActionType :=
  if (i <? 0)%Z then None else nth_error actionCycle (Z.to_nat i).

(** [(i + 1) % this.actionCycle.length] *)
Definition next_index (i : Z) : Z :=
  Z.rem (i + 1) (Z.of_nat (List.length actionCycle)).

(** [setMovement(movementType)].  [server_players] is the table
    [players] that Enemy.ts imports from server.ts. *)
Definition setMovement (server_players : list (string * Player.t))
    (movementType : ActionType) (e : t) : t :=
  if negb (truthy_str (targetPlayerId e)) then e
  else
    match targetPlayerId e with
    | None => e
    | Some tid =>
        match lookup tid server_players with
        | None => e
        | Some target =>
            let targetPos := Player.position target in
            let dx := (Vec2.x targetPos - Vec2.x (position e))%R in
            let dy := (Vec2.y targetPos - Vec2.y (position e))%R in
            let angle := Math_atan2 dy dx in
            let dir :=
              if Rltb (Rabs dy) (Rabs dx)
              then (if Rltb 0 dx then "right" else "left")
              else (if Rltb 0 dy then "down" else "up") in
            let '(distance, duration) :=
              match movementType with
              | hop => (HOP_DISTANCE, MOVE_DURATION)
              | _ => (LONG_JUMP_DISTANCE, LONG_JUMP_DURATION)
              end in
            let speed := (distance / (duration / 1000))%R in
            let e := with_direction dir e in
            let e := with_velocity
                       (Vec2.mk (cos angle * speed) (sin angle * speed)) e in
            let e := with_actionTimer duration e in
            with_action movementType e
        end
    end.

(** [executeAction(action)]; the argument is [undefined] when the index
    was outside the cycle. *)
Definition executeAction (server_players : list (string * Player.t))
    (a : option ActionType) (e : t) : t :=
  match a with
  | Some hop => setMovement server_players hop e
  | Some longJump => setMovement server_players longJump e
  | Some idle =>
      with_actionTimer PAUSE_DURATION (with_action idle (with_velocity Vec2.zero e))
  | _ => with_action idle (with_velocity Vec2.zero e)
  end.

Definition executeNextAction (server_players : list (string * Player.t))
    (e : t) : t :=
  let e := with_currentActionIndex (next_index (currentActionIndex e)) e in
  executeAction server_players (cycle_at (currentActionIndex e)) e.

(** [Math.max(0, Math.min(hi, v))] *)
Definition clamp (hi v : R) : R := Rmax 0 (Rmin hi v).

Definition move (server_players : list (string * Player.t))
    (deltaTime : R) (e : t) : t :=
  if negb (alive e) then e
  else
    let deltaSeconds := (deltaTime / 1000)%R in
    let px := (Vec2.x (position e) + Vec2.x (velocity e) * deltaSeconds)%R in
    let py := (Vec2.y (position e) + Vec2.y (velocity e) * deltaSeconds)%R in
    let e := with_position (Vec2.mk (clamp 800 px) (clamp 600 py)) e in
    let e := with_actionTimer (actionTimer e - deltaTime)%R e in
    if Rleb (actionTimer e) 0
    then
      let e := with_currentActionIndex (next_index (currentActionIndex e)) e in
      executeAction server_players (cycle_at (currentActionIndex e)) e
    else e.

(** [takeDamage(amount)]: the result and the enemy afterwards. *)
Definition takeDamage (amount : Z) (e : t) : bool * t :=
  let e := with_health (health e - amount)%Z e in
  if (health e <=? 0)%Z then (true, with_alive false e)
  else
    (false,
     with_actionTimer PAUSE_DURATION
       (with_action confused (with_velocity Vec2.zero e))).

Definition detectionRadius : R := 50.

(** One iteration of the loop of [findTarget] over the table. *)
Definition scan_step (pos : Vec2.t) (acc : option string * option R)
    (entry : string * Player.t) : option string * option R :=
  let '(closestPlayerId, minDistance) := acc in
  let '(playerId, player) := entry in
  let distance := getDistance pos (Player.position player) in
  if below distance minDistance && Rleb distance detectionRadius
  then (Some playerId, Some distance)
  else (closestPlayerId, minDistance).

(** [this.targetPlayerId && players[this.targetPlayerId]?.isAlive] *)
Definition has_live_target (players : list (string * Player.t)) (e : t) : bool :=
  truthy_str (targetPlayerId e) &&
  match targetPlayerId e with
  | Some tid =>
      match lookup tid players with
      | Some target => Player.isAlive target
      | None => false
      end
  | None => false
  end.

(** [findTarget(players)]; [server_players] is the imported table that
    [setMovement] reads, [players] the argument. *)
Definition findTarget (server_players players : list (string * Player.t))
    (e : t) : t :=
  if has_live_target players e then e
  else
    let '(closestPlayerId, _) :=
      fold_left (scan_step (position e)) players (None, None) in
    if truthy_str closestPlayerId
    then
      let e := with_targetPlayerId closestPlayerId e in
      let e := with_currentActionIndex (-1) e in
      executeNextAction server_players e
    else e.

Definition performAction (players : list (string * Player.t)) (e : t) : t :=
  if negb (truthy_str (targetPlayerId e)) then e
  else
    match targetPlayerId e with
    | None => e
    | Some tid =>
        let lost :=
          match lookup tid players with
          | None => true
          | Some target => negb (Player.isAlive target)
          end in
        if lost
        then with_velocity Vec2.zero (with_action idle (with_targetPlayerId None e))
        else e
    end.

End Enemy.

(** ** server.ts: the combat step and the tick *)

Module Server.

(** The two tables of game state.  The messages sent ([levelUp]) and the
    database write of [handleAttack] do not feed back into them and are
    left out. *)
Record World : Type := mkWorld {
  players : list (string * Player.t);
  enemies : list (string * Enemy.t)
}.

Definition attackRadius : R := 50.

(** One iteration of the loop of [handleAttack] over
    [Object.values(enemies)]; the reference [closestEnemy] is kept as
    the entry of the table it points to. *)
Definition attack_step (pos : Vec2.t)
    (acc : option (string * Enemy.t) * option R)
    (entry : string * Enemy.t) : option (string * Enemy.t) * option R :=
  let '(closestEnemy, minDistance) := acc in
  let enemy := snd entry in
  if negb (Enemy.alive enemy) then acc
  else
    let distance := getDistance pos (Enemy.position enemy) in
    if below distance minDistance && Rltb distance attackRadius
    then (Some entry, Some distance)
    else (closestEnemy, minDistance).

Definition closestEnemy (pos : Vec2.t) (es : list (string * Enemy.t))
  : option (string * Enemy.t) :=
  fst (fold_left (attack_step pos) es (None, None)).

Definition handleAttack (playerId : string) (w : World) : World :=
  match lookup playerId (players w) with
  | None => w
  | Some player =>
      match closestEnemy (Player.position player) (enemies w) with
      | None => w
      | Some (key, enemy) =>
          let '(isDead, enemy) := Enemy.takeDamage 10 enemy in
          let es := store key enemy (enemies w) in
          if isDead
          then
            let '(_, player) := Player.gainExp 50 player in
            mkWorld (store playerId player (players w))
                    (delete (Enemy.id enemy) es)
          else mkWorld (players w) es
      end
  end.

(** The body of the first loop of [updateGameState] for one key. *)
Definition updatePlayer (mapLoader : MapLoader.t) (w : World)
    (playerId : string) : World :=
  match lookup playerId (players w) with
  | None => w
  | Some player =>
      let w := if Player.isAttacking player then handleAttack playerId w else w in
      match lookup playerId (players w) with
      | None => w
      | Some player =>
          mkWorld (store playerId (Player.processInput mapLoader player) (players w))
                  (enemies w)
      end
  end.

(** The body of the second loop, for one enemy. *)
Definition updateEnemy (ps : list (string * Player.t)) (deltaTime : R)
    (e : Enemy.t) : Enemy.t :=
  if Enemy.alive e
  then Enemy.move ps deltaTime (Enemy.performAction ps (Enemy.findTarget ps ps e))
  else e.

Definition updateGameState (mapLoader : MapLoader.t) (deltaTime : R)
    (w : World) : World :=
  let w := fold_left (updatePlayer mapLoader) (List.map fst (players w)) w in
  mkWorld (players w)
          (List.map (fun kv => (fst kv, updateEnemy (players w) deltaTime (snd kv)))
                    (enemies w)).

End Server.

(** ** server.ts: spawning, snapshots and socket handlers *)

(** [table[key] = v]: an existing key keeps its place, a new key goes to
    the end of the enumeration. *)
Fixpoint assign {A : Type} (key : string) (v : A) (table : list (string * A))
  : list (string * A) :=
  match table with
  | [] => [(key, v)]
  | (k, w) :: rest =>
      if k =? key then (k, v) :: rest else (k, w) :: assign key v rest
  end.

Definition MAX_ENEMIES : Z := 5.

(** [spawnEnemies()].  [draw i] is the uuid and the random position the
    [i]-th [new Enemy()] of this call draws. *)
Definition spawnEnemies (draw : nat -> string * Vec2.t) (w : Server.World)
  : Server.World :=
  let aliveEnemies := filter (fun kv => Enemy.alive (snd kv)) (Server.enemies w) in
  let enemiesToSpawn := (MAX_ENEMIES - Z.of_nat (List.length aliveEnemies))%Z in
  Server.mkWorld (Server.players w)
    (fold_left
       (fun es i =>
          let enemy := Enemy.new (fst (draw i)) (snd (draw i)) in
          assign (Enemy.id enemy) enemy es)
       (seq 0 (Z.to_nat enemiesToSpawn))
       (Server.enemies w)).

(** The [PlayerData] and [EnemyData] objects of a snapshot. *)
Module PlayerData.
Record t : Type := mk {
  playerId : string;
  position : Vec2.t;
  level : Z;
  exp : Z;
  direction : string;
  action : string;
  health : Z;
  socketId : string
}.
End PlayerData.

Module EnemyData.
Record t : Type := mk {
  id : string;
  position : Vec2.t;
  health : Z;
  direction : string;
  action : ActionType
}.
End EnemyData.

Module GameState.
Record t : Type := mk {
  players : list (string * PlayerData.t);
  enemies : list (string * EnemyData.t)
}.
End GameState.

Definition playerData (player : Player.t) : PlayerData.t :=
  PlayerData.mk (Player.playerId player) (Player.position player)
    (Player.level player) (Player.exp player) (Player.direction player)
    (Player.action player) (Player.health player) (Player.socketId player).

Definition enemyData (enemy : Enemy.t) : EnemyData.t :=
  EnemyData.mk (Enemy.id enemy) (Enemy.position enemy) (Enemy.health enemy)
    (Enemy.direction enemy) (Enemy.action enemy).

(** [getGameState()]. *)
Definition getGameState (w : Server.World) : GameState.t :=
  GameState.mk
    (fold_left
       (fun acc kv => assign (fst kv) (playerData (snd kv)) acc)
       (Server.players w) [])
    (fold_left
       (fun acc kv =>
          if Enemy.alive (snd kv)
          then assign (Enemy.id (snd kv)) (enemyData (snd kv)) acc
          else acc)
       (Server.enemies w) []).

(** [gameLoop()] with the elapsed time it measured: the snapshot it
    emits and the world it leaves. *)
Definition gameLoop (mapLoader : MapLoader.t) (deltaTime : R)
    (draw : nat -> string * Vec2.t) (w : Server.World)
  : GameState.t * Server.World :=
  let w := Server.updateGameState mapLoader deltaTime w in
  let state := getGameState w in
  (state, spawnEnemies draw w).

(** The game state together with the two socket tables. *)
Record ServerState : Type := mkServerState {
  world : Server.World;
  socketIdToPlayerId : list (string * string);
  playerIdToSocketId : list (string * string)
}.

(** The [playerInput] handler of the socket [socketId]. *)
Definition onPlayerInput (socketId : string) (input : PlayerInput.t)
    (st : ServerState) : ServerState :=
  let playerId := lookup socketId (socketIdToPlayerId st) in
  match playerId with
  | Some pid =>
      if truthy_str playerId
      then
        match lookup pid (Server.players (world st)) with
        | Some player =>
            mkServerState
              (Server.mkWorld
                 (store pid (Player.setInput input player)
                    (Server.players (world st)))
                 (Server.enemies (world st)))
              (socketIdToPlayerId st) (playerIdToSocketId st)
        | None => st
        end
      else st
  | None => st
  end.

(** The [disconnect] handler of the socket [socketId]. *)
Definition onDisconnect (socketId : string) (st : ServerState) : ServerState :=
  let playerId := lookup socketId (socketIdToPlayerId st) in
  match playerId with
  | Some pid =>
      if truthy_str playerId
      then
        mkServerState
          (Server.mkWorld (delete pid (Server.players (world st)))
             (Server.enemies (world st)))
          (delete socketId (socketIdToPlayerId st))
          (delete pid (playerIdToSocketId st))
      else st
  | None => st
  end.

(** ** More specification vocabulary *)

(** Experience gained in all: what is held at the current level plus
    the thresholds [100, 200, ...] of the levels passed. *)
Definition total_exp (p : Player.t) : Z :=
  (Player.exp p + 50 * Player.level p * (Player.level p - 1))%Z.

(** [n] calls of [takeDamage(amount)], results dropped. *)
Fixpoint hits (n : nat) (amount : Z) (e : Enemy.t) : Enemy.t :=
  match n with
  | O => e
  | S n' => hits n' amount (snd (Enemy.takeDamage amount e))
  end.

(** The number of alive enemies of a table. *)
Definition alive_count (es : list (string * Enemy.t)) : nat :=
  List.length (filter (fun kv => Enemy.alive (snd kv)) es).

(** The duration an action of the cycle sets, in ms. *)
Definition duration_of (a : ActionType) : R :=
  match a with
  | hop => Enemy.MOVE_DURATION
  | longJump => Enemy.LONG_JUMP_DURATION
  | _ => Enemy.PAUSE_DURATION
  end.

(** The speed of a movement, in units per second. *)
Definition speed_of (a : ActionType) : R :=
  match a with
  | hop => (Enemy.HOP_DISTANCE / (Enemy.MOVE_DURATION / 1000))%R
  | _ => (Enemy.LONG_JUMP_DISTANCE / (Enemy.LONG_JUMP_DURATION / 1000))%R
  end.

(** A draw function whose [i]-th id is the decimal-free tag ["n"] repeated
    [i + 1] times, at the centre of the field. *)
Definition tagged_draw (i : nat) : string * Vec2.t :=
  (String.concat "" (repeat "n" (S i)), Vec2.mk 400 300).

(** ** Specification vocabulary *)

(** The leveling invariant of the data model. *)
Definition level_invariant (p : Player.t) : Prop :=
  (0 <= Player.exp p < Player.level p * 100)%Z.

(** A sequence of [gainExp] calls, results dropped. *)
Definition gainExp_all (amounts : list Z) (p : Player.t) : Player.t :=
  fold_left (fun q amount => snd (Player.gainExp amount q)) amounts p.

(** A sequence of [playerInput] messages arriving between two ticks. *)
Definition setInput_all (inputs : list PlayerInput.t) (p : Player.t) : Player.t :=
  fold_left (fun q input => Player.setInput input q) inputs p.

(** Ticks of one player: the messages of each tick are buffered, then
    [processInput] runs once. *)
Definition play (mapLoader : MapLoader.t) (ticks : list (list PlayerInput.t))
    (p : Player.t) : Player.t :=
  fold_left (fun q inputs => Player.processInput mapLoader (setInput_all inputs q))
            ticks p.

(** Contribution of a pair of opposing flags to one axis, in steps. *)
Definition axis (plus minus : option bool) : R :=
  ((if truthy_flag plus then 1 else 0) - (if truthy_flag minus then 1 else 0))%R.

(** The collision query at the probe of a position. *)
Definition probe_blocked (mapLoader : MapLoader.t) (pos : Vec2.t) : bool :=
  MapLoader.isTileBlocked mapLoader (fst (Player.probeTile pos))
                          (snd (Player.probeTile pos)).

(** The tile a position itself lies in. *)
Definition positionTile (pos : Vec2.t) : Z * Z :=
  (Math_floor (Vec2.x pos / 16), Math_floor (Vec2.y pos / 16)).

(** A tile coordinate outside the bounds of the map. *)
Definition outside_map (m : MapLoader.Tilemap) (tile : Z * Z) : bool :=
  (fst tile <? 0)%Z || (MapLoader.width m <=? fst tile)%Z
  || (snd tile <? 0)%Z || (MapLoader.height m <=? snd tile)%Z.

(** Some tile layer holds a collideable tile at an in-bounds coordinate. *)
Definition collideable_at (ml : MapLoader.t) (tile : Z * Z) : bool :=
  existsb
    (fun layer =>
       (MapLoader.type layer =? "tilelayer")
       && negb (MapLoader.out_of_bounds layer (fst tile) (snd tile))
       && MapLoader.has (MapLoader.collidableTiles ml)
            (MapLoader.data_at layer
               (snd tile * MapLoader.layer_width layer + fst tile)%Z))
    (MapLoader.layers (MapLoader.map ml)).

(** The enemy after the position and timer updates of [move]. *)
Definition advanced (deltaTime : R) (e : Enemy.t) : Enemy.t :=
  Enemy.with_actionTimer (Enemy.actionTimer e - deltaTime)%R
    (Enemy.with_position
       (Vec2.mk
          (Enemy.clamp 800
             (Vec2.x (Enemy.position e)
              + Vec2.x (Enemy.velocity e) * (deltaTime / 1000))%R)
          (Enemy.clamp 600
             (Vec2.y (Enemy.position e)
              + Vec2.y (Enemy.velocity e) * (deltaTime / 1000))%R))
       e).

(** Ticks of one enemy against a fixed player table. *)
Definition move_all (server_players : list (string * Player.t))
    (deltas : list R) (e : Enemy.t) : Enemy.t :=
  fold_left (fun q deltaTime => Enemy.move server_players deltaTime q) deltas e.

(** The enemy table as the server builds it: one entry per key, each
    enemy stored under its own id ([enemies[enemy.id] = enemy]). *)
Definition enemies_wf (es : list (string * Enemy.t)) : Prop :=
  NoDup (List.map fst es) /\ forall k e, In (k, e) es -> Enemy.id e = k.

(** ** Concrete states used in the examples *)

Definition msg_attack : PlayerInput.t :=
  PlayerInput.mk None None None None None (Some "attack").
Definition msg_up : PlayerInput.t :=
  PlayerInput.mk None None (Some true) None None None.
Definition msg_right : PlayerInput.t :=
  PlayerInput.mk None (Some true) None None None None.
Definition msg_idle : PlayerInput.t :=
  PlayerInput.mk (Some false) (Some false) (Some false) (Some false)
                 (Some "right") (Some "idle").

(** The player the server creates for an unknown id. *)
Definition fresh_player : Player.t :=
  Player.new "p1" (Vec2.mk 300 200) 1 0 100 "s1" "right" "idle".

Definition attacking_player : Player.t := Player.setInput msg_attack fresh_player.

(** A 20 x 15 map with one empty tile layer and no collideable tile. *)
Definition open_map : MapLoader.t :=
  MapLoader.load
    (MapLoader.mkTilemap
       [MapLoader.mkLayer "tilelayer" (repeat 0%Z 300) 15 20]
       [] 15 20).

(** A 2 x 3 map whose tile (1, 0) carries the collideable tile of its
    only tileset (global id 1). *)
Definition walled_map : MapLoader.t :=
  MapLoader.load
    (MapLoader.mkTilemap
       [MapLoader.mkLayer "tilelayer" [0; 1; 0; 0; 0; 0]%Z 3 2]
       [MapLoader.mkTileset 1
          (Some [MapLoader.mkTile 0
                   (Some [MapLoader.mkProperty "collideable" true])])]
       3 2).

(** A player standing on the free tile (1, 1) of [walled_map]. *)
Definition walker : Player.t :=
  Player.new "p2" (Vec2.mk 20 18) 1 0 100 "s2" "up" "idle".

(** A player standing on the top row of [open_map]. *)
Definition edge_walker : Player.t :=
  Player.new "p3" (Vec2.mk 300 2) 1 0 100 "s3" "up" "idle".


(** An enemy as spawned, in the middle of the field. *)
Definition idle_enemy : Enemy.t := Enemy.new "e1" (Vec2.mk 400 300).

(** The table holding the player the server creates. *)
Definition one_player : list (string * Player.t) := [("p1", fresh_player)].

(** An enemy 200 units left of that player, holding it as target. *)
Definition chaser : Enemy.t :=
  Enemy.with_targetPlayerId (Some "p1") (Enemy.new "e2" (Vec2.mk 100 200)).



(** An enemy as spawned, 20 units right of the player the server
    creates, and the world holding the two. *)
Definition slime : Enemy.t := Enemy.new "e4" (Vec2.mk 320 200).
Definition arena : Server.World := Server.mkWorld one_player [("e4", slime)].

(** The same enemy with 10 health left, and the world holding it. *)
Definition weak_slime : Enemy.t := Enemy.with_health 10 slime.
Definition last_stand : Server.World :=
  Server.mkWorld one_player [("e4", weak_slime)].

(** An enemy as spawned, exactly 50 units right of the player the server
    creates, and the world holding the two. *)
Definition rim_slime : Enemy.t := Enemy.new "e5" (Vec2.mk 350 200).
Definition rim : Server.World := Server.mkWorld one_player [("e5", rim_slime)].

(** The world of an attacking player and an enemy with 10 health left,
    20 units away. *)
Definition duel : Server.World :=
  Server.mkWorld [("p1", attacking_player)] [("e4", weak_slime)].

(** * Theorems *)

(** ** Leveling *)

(** A gain that crosses at most one threshold keeps the invariant: this
    covers the only call in the server, [gainExp(50)] at level [>= 1]. *)
Lemma gainExp_invariant_one_threshold (amount : Z) (p : Player.t) :
  level_invariant p ->
  (0 <= amount)%Z ->
  (Player.exp p + amount < (2 * Player.level p + 1) * 100)%Z ->
  level_invariant (snd (Player.gainExp amount p)).
Proof.
  unfold level_invariant, Player.gainExp; intros [Hlo Hhi] Hamount Hroom.
  cbn [Player.with_progress Player.level Player.exp].
  destruct (Z.leb_spec (Player.level p * 100) (Player.exp p + amount));
    cbn [snd Player.with_progress Player.level Player.exp]; lia.
Qed.

(** C1, at a failing input.  A fresh player (level 1, exp 0) satisfies
    [0 <= exp < level*100]; one call [gainExp(300)] crosses the thresholds
    of levels 1 and 2, yet the deduction runs once: the player ends at
    level 2 with exp 200, and [exp < level*100] is false. *)
Theorem gainExp_deducts_once :
  level_invariant fresh_player /\
  fst (Player.gainExp 300 fresh_player) = true /\
  Player.level (snd (Player.gainExp 300 fresh_player)) = 2%Z /\
  Player.exp (snd (Player.gainExp 300 fresh_player)) = 200%Z /\
  ~ level_invariant (snd (Player.gainExp 300 fresh_player)).
Proof.
  unfold level_invariant; cbn.
  repeat split; try reflexivity; try lia.
Qed.

(** ** The input buffer *)

Lemma is_attack_true (o : option string) :
  is_attack o = true <-> o = Some "attack".
Proof.
  destruct o as [s|]; cbn.
  - rewrite String.eqb_eq. split; [intros ->; reflexivity | intros [= ->]; reflexivity].
  - split; discriminate.
Qed.

Lemma setInput_action (input : PlayerInput.t) (p : Player.t) :
  PlayerInput.action (Player.currentInput (Player.setInput input p)) =
  if Player.isAttacking p then Some "attack" else PlayerInput.action input.
Proof.
  unfold Player.setInput, Player.isAttacking.
  destruct (is_attack (PlayerInput.action (Player.currentInput p))); reflexivity.
Qed.

Lemma setInput_isAttacking (input : PlayerInput.t) (p : Player.t) :
  Player.isAttacking (Player.setInput input p) =
  Player.isAttacking p || is_attack (PlayerInput.action input).
Proof.
  unfold Player.isAttacking at 1. rewrite setInput_action.
  destruct (Player.isAttacking p); reflexivity.
Qed.

Lemma processInput_clears (mapLoader : MapLoader.t) (p : Player.t) :
  Player.currentInput (Player.processInput mapLoader p) = PlayerInput.empty.
Proof.
  unfold Player.processInput.
  destruct (Player.probeTile (Player.newPosition p)); reflexivity.
Qed.

Lemma setInput_all_isAttacking (inputs : list PlayerInput.t) (p : Player.t) :
  Player.isAttacking p = true ->
  Player.isAttacking (setInput_all inputs p) = true.
Proof.
  revert p; induction inputs as [|input inputs IH]; intros p Hp; cbn.
  - exact Hp.
  - apply IH. rewrite setInput_isAttacking, Hp. reflexivity.
Qed.

(** C2 as stated fails.  With "attack" buffered, a message that
    explicitly sets [action: "idle"] leaves "attack" buffered, although
    the message neither sets "attack" nor omits the action. *)
Lemma setInput_explicit_action_overridden :
  Player.isAttacking (Player.setInput msg_idle attacking_player) = true /\
  PlayerInput.action msg_idle = Some "idle" /\
  Player.isAttacking attacking_player = true /\
  ~ (is_attack (PlayerInput.action msg_idle) = true \/
     (Player.isAttacking attacking_player = true /\
      PlayerInput.action msg_idle = None)).
Proof.
  repeat split; try reflexivity.
  intros [H | [_ H]]; discriminate H.
Qed.

(** C2, amended.  [setInput] replaces the buffered directional flags and
    direction by those of the message; afterwards the buffered action is
    "attack" exactly when the message sets "attack" or "attack" was
    buffered before (whatever action the message sets).  After
    [{action: "attack"}] then [{up: true}] the player is attacking with
    [up] buffered, and [processInput] leaves the buffer empty. *)
Theorem setInput_sticky_attack :
  forall (mapLoader : MapLoader.t) (input : PlayerInput.t) (p : Player.t),
    PlayerInput.left (Player.currentInput (Player.setInput input p))
      = PlayerInput.left input /\
    PlayerInput.right (Player.currentInput (Player.setInput input p))
      = PlayerInput.right input /\
    PlayerInput.up (Player.currentInput (Player.setInput input p))
      = PlayerInput.up input /\
    PlayerInput.down (Player.currentInput (Player.setInput input p))
      = PlayerInput.down input /\
    PlayerInput.direction (Player.currentInput (Player.setInput input p))
      = PlayerInput.direction input /\
    (PlayerInput.action (Player.currentInput (Player.setInput input p))
       = Some "attack"
     <-> PlayerInput.action input = Some "attack"
         \/ PlayerInput.action (Player.currentInput p) = Some "attack") /\
    PlayerInput.action
      (Player.currentInput (Player.setInput msg_up (Player.setInput msg_attack p)))
      = Some "attack" /\
    PlayerInput.up
      (Player.currentInput (Player.setInput msg_up (Player.setInput msg_attack p)))
      = Some true /\
    Player.isAttacking (Player.setInput msg_up (Player.setInput msg_attack p)) = true /\
    Player.currentInput
      (Player.processInput mapLoader
         (Player.setInput msg_up (Player.setInput msg_attack p)))
      = PlayerInput.empty.
Proof.
  intros mapLoader input p.
  assert (Hfields :
    forall i q,
      PlayerInput.left (Player.currentInput (Player.setInput i q)) = PlayerInput.left i /\
      PlayerInput.right (Player.currentInput (Player.setInput i q)) = PlayerInput.right i /\
      PlayerInput.up (Player.currentInput (Player.setInput i q)) = PlayerInput.up i /\
      PlayerInput.down (Player.currentInput (Player.setInput i q)) = PlayerInput.down i /\
      PlayerInput.direction (Player.currentInput (Player.setInput i q))
        = PlayerInput.direction i).
  { intros i q. unfold Player.setInput.
    destruct (is_attack (PlayerInput.action (Player.currentInput q)));
      repeat split; reflexivity. }
  destruct (Hfields input p) as (Hl & Hr & Hu & Hd & Hdir).
  assert (Hscenario :
    Player.isAttacking (Player.setInput msg_up (Player.setInput msg_attack p)) = true).
  { rewrite !setInput_isAttacking. cbn. destruct (Player.isAttacking p); reflexivity. }
  assert (Hiff :
    PlayerInput.action (Player.currentInput (Player.setInput input p))
      = Some "attack"
    <-> PlayerInput.action input = Some "attack"
        \/ PlayerInput.action (Player.currentInput p) = Some "attack").
  { rewrite setInput_action. unfold Player.isAttacking.
    destruct (is_attack (PlayerInput.action (Player.currentInput p))) eqn:E.
    - apply is_attack_true in E. tauto.
    - split; [tauto|]. intros [H | H]; [exact H|].
      apply is_attack_true in H. congruence. }
  pose proof (Hfields msg_up (Player.setInput msg_attack p)) as (_ & _ & Hup & _).
  pose proof (processInput_clears mapLoader
                (Player.setInput msg_up (Player.setInput msg_attack p))) as Hclear.
  pose proof (proj1 (is_attack_true _) Hscenario) as Hact.
  tauto.
Qed.

(** C10.  Once "attack" is buffered, it stays buffered through every
    further message, also one that explicitly sets another action; only
    [processInput] removes it. *)
Theorem setInput_cannot_cancel_attack :
  forall (mapLoader : MapLoader.t) (inputs : list PlayerInput.t)
         (input : PlayerInput.t) (p : Player.t),
    PlayerInput.action (Player.currentInput p) = Some "attack" ->
    PlayerInput.action (Player.currentInput (Player.setInput input p))
      = Some "attack" /\
    PlayerInput.action (Player.currentInput (setInput_all inputs p))
      = Some "attack" /\
    Player.isAttacking (Player.processInput mapLoader (setInput_all inputs p))
      = false.
Proof.
  intros mapLoader inputs input p Hp.
  apply is_attack_true in Hp.
  split; [|split].
  - apply is_attack_true. fold (Player.isAttacking (Player.setInput input p)).
    rewrite setInput_isAttacking. unfold Player.isAttacking. rewrite Hp. reflexivity.
  - apply is_attack_true. apply (setInput_all_isAttacking inputs p Hp).
  - unfold Player.isAttacking. rewrite processInput_clears. reflexivity.
Qed.

Lemma setInput_cannot_cancel_attack_witness :
  PlayerInput.action (Player.currentInput attacking_player) = Some "attack" /\
  PlayerInput.action
    (Player.currentInput (Player.setInput msg_idle attacking_player))
    = Some "attack" /\
  PlayerInput.action
    (Player.currentInput (setInput_all [msg_up; msg_idle] attacking_player))
    = Some "attack" /\
  Player.isAttacking
    (Player.processInput open_map (setInput_all [msg_up; msg_idle] attacking_player))
    = false.
Proof.
  split; [reflexivity|].
  apply (setInput_cannot_cancel_attack open_map [msg_up; msg_idle] msg_idle
           attacking_player).
  reflexivity.
Defined.

(** ** Movement against the tile map *)

Lemma Math_floor_eq (r : R) (z : Z) :
  (IZR z <= r < IZR z + 1)%R -> Math_floor r = z.
Proof.
  intros H. unfold Math_floor. symmetry. apply Int_part_spec. lra.
Qed.

Ltac floor_is z :=
  rewrite (Math_floor_eq _ z)
    by (cbn; unfold TICK_RATE, Player.halfSpriteSize, Player.spriteSize; lra).

Lemma newPosition_closed_form (p : Player.t) :
  Player.newPosition p =
  Vec2.mk
    (Vec2.x (Player.position p)
     + axis (PlayerInput.right (Player.currentInput p))
            (PlayerInput.left (Player.currentInput p))
       * (Player.speed p / TICK_RATE))
    (Vec2.y (Player.position p)
     + axis (PlayerInput.down (Player.currentInput p))
            (PlayerInput.up (Player.currentInput p))
       * (Player.speed p / TICK_RATE)).
Proof.
  unfold Player.newPosition, axis.
  set (step := (Player.speed p / TICK_RATE)%R).
  destruct (truthy_flag (PlayerInput.left (Player.currentInput p))),
           (truthy_flag (PlayerInput.right (Player.currentInput p))),
           (truthy_flag (PlayerInput.up (Player.currentInput p))),
           (truthy_flag (PlayerInput.down (Player.currentInput p)));
    f_equal; lra.
Qed.

Lemma processInput_position (mapLoader : MapLoader.t) (p : Player.t) :
  Player.position (Player.processInput mapLoader p) =
  if probe_blocked mapLoader (Player.newPosition p)
  then Player.position p
  else Player.newPosition p.
Proof.
  unfold Player.processInput, probe_blocked.
  destruct (Player.probeTile (Player.newPosition p)) as [tx ty]; cbn [fst snd].
  destruct (MapLoader.isTileBlocked mapLoader tx ty); cbn [negb];
    destruct (PlayerInput.direction (Player.currentInput p)) as [d|];
    destruct (PlayerInput.action (Player.currentInput p)) as [a|];
    try destruct (truthy_str (Some d)); try destruct (truthy_str (Some a));
    reflexivity.
Qed.

Lemma setInput_position (input : PlayerInput.t) (p : Player.t) :
  Player.position (Player.setInput input p) = Player.position p.
Proof.
  unfold Player.setInput.
  destruct (is_attack (PlayerInput.action (Player.currentInput p))); reflexivity.
Qed.

Lemma setInput_all_position (inputs : list PlayerInput.t) (p : Player.t) :
  Player.position (setInput_all inputs p) = Player.position p.
Proof.
  revert p; induction inputs as [|input inputs IH]; intros p; cbn.
  - reflexivity.
  - rewrite IH. apply setInput_position.
Qed.

(** The collision query answers [false] exactly when every tile layer
    has the coordinate within its bounds and no collideable tile there. *)
Lemma isTileBlocked_false (ml : MapLoader.t) (x y : Z) :
  MapLoader.isTileBlocked ml x y = false <->
  forall layer,
    In layer (MapLoader.layers (MapLoader.map ml)) ->
    MapLoader.type layer = "tilelayer" ->
    MapLoader.out_of_bounds layer x y = false /\
    MapLoader.has (MapLoader.collidableTiles ml)
      (MapLoader.data_at layer (y * MapLoader.layer_width layer + x)%Z) = false.
Proof.
  unfold MapLoader.isTileBlocked.
  induction (MapLoader.layers (MapLoader.map ml)) as [|l ls IH]; cbn [MapLoader.blocked_in].
  - split; [intros _ layer []|reflexivity].
  - destruct (MapLoader.type l =? "tilelayer") eqn:Etype; cbn [negb].
    + destruct (MapLoader.out_of_bounds l x y) eqn:Eoob.
      * split; [discriminate|].
        intros H. destruct (H l) as [Hoob _]; [left; reflexivity| |congruence].
        apply String.eqb_eq, Etype.
      * destruct (MapLoader.has _ _) eqn:Ehas.
        -- split; [discriminate|].
           intros H. destruct (H l) as [_ Hhas]; [left; reflexivity| |congruence].
           apply String.eqb_eq, Etype.
        -- rewrite IH. split.
           ++ intros H layer [<-|Hin] Hty; [split; assumption|apply H; assumption].
           ++ intros H layer Hin Hty. apply H; [right; exact Hin|exact Hty].
    + rewrite IH. split.
      * intros H layer [<-|Hin] Hty.
        -- apply String.eqb_neq in Etype. contradiction.
        -- apply H; assumption.
      * intros H layer Hin Hty. apply H; [right; exact Hin|exact Hty].
Qed.

Lemma play_probe (mapLoader : MapLoader.t) (ticks : list (list PlayerInput.t))
    (p : Player.t) :
  probe_blocked mapLoader (Player.position p) = false ->
  probe_blocked mapLoader (Player.position (play mapLoader ticks p)) = false.
Proof.
  unfold play. revert p.
  induction ticks as [|inputs ticks IH]; intros p Hp; cbn [fold_left].
  - exact Hp.
  - apply IH. rewrite processInput_position.
    destruct (probe_blocked mapLoader (Player.newPosition (setInput_all inputs p))) eqn:E.
    + rewrite setInput_all_position. exact Hp.
    + exact E.
Qed.

(** C3 as stated fails: only the probe below the player is tested.  On
    [walled_map] a player on the free tile (1, 1) at (20, 18) moves up to
    (20, 15), which lies in the collideable tile (1, 0); on [open_map] a
    player at (300, 2) moves up to (300, -1), whose tile (18, -1) is
    outside the map. *)
Lemma processInput_enters_collideable_tile :
  collideable_at walled_map (positionTile (Player.position walker)) = false /\
  outside_map (MapLoader.map walled_map) (positionTile (Player.position walker))
    = false /\
  probe_blocked walled_map (Player.position walker) = false /\
  Player.position (Player.processInput walled_map (Player.setInput msg_up walker))
    = Vec2.mk 20 (18 - 60 / 20) /\
  collideable_at walled_map
    (positionTile
       (Player.position
          (Player.processInput walled_map (Player.setInput msg_up walker))))
    = true /\
  outside_map (MapLoader.map open_map)
    (positionTile (Player.position edge_walker)) = false /\
  outside_map (MapLoader.map open_map)
    (positionTile
       (Player.position
          (Player.processInput open_map (Player.setInput msg_up edge_walker))))
    = true.
Proof.
  assert (Hmove :
    Player.position (Player.processInput walled_map (Player.setInput msg_up walker))
    = Vec2.mk 20 (18 - 60 / 20)).
  { rewrite processInput_position. unfold probe_blocked, Player.probeTile.
    cbn [Player.newPosition Player.setInput walker Player.new msg_up is_attack
         PlayerInput.action PlayerInput.empty Player.currentInput
         Player.with_currentInput Player.position Player.speed truthy_flag
         PlayerInput.left PlayerInput.right PlayerInput.up PlayerInput.down
         Vec2.x Vec2.y fst snd].
    floor_is 1%Z. floor_is 1%Z. reflexivity. }
  assert (Hedge :
    Player.position (Player.processInput open_map (Player.setInput msg_up edge_walker))
    = Vec2.mk 300 (2 - 60 / 20)).
  { rewrite processInput_position. unfold probe_blocked, Player.probeTile.
    cbn [Player.newPosition Player.setInput edge_walker Player.new msg_up is_attack
         PlayerInput.action PlayerInput.empty Player.currentInput
         Player.with_currentInput Player.position Player.speed truthy_flag
         PlayerInput.left PlayerInput.right PlayerInput.up PlayerInput.down
         Vec2.x Vec2.y fst snd].
    floor_is 18%Z. floor_is 0%Z. reflexivity. }
  rewrite Hmove, Hedge.
  unfold positionTile, probe_blocked, Player.probeTile.
  cbn [walker edge_walker Player.new Player.position Vec2.x Vec2.y fst snd].
  repeat split.
  - floor_is 1%Z. floor_is 1%Z. reflexivity.
  - floor_is 1%Z. floor_is 1%Z. reflexivity.
  - floor_is 1%Z. floor_is 2%Z. reflexivity.
  - floor_is 1%Z. floor_is 0%Z. reflexivity.
  - floor_is 18%Z. floor_is 0%Z. reflexivity.
  - floor_is 18%Z. floor_is (-1)%Z. reflexivity.
Qed.

(** C3, amended.  If the collision probe of the player's position,
    [(x - 2, y + 16)], starts on a tile that is not blocked, then after
    any number of ticks of buffered inputs it is on a tile that is not
    blocked: within the bounds of every tile layer and collideable on
    none.  A coordinate outside the bounds of some tile layer is always
    reported blocked. *)
Theorem play_probe_never_blocked :
  forall (mapLoader : MapLoader.t) (ticks : list (list PlayerInput.t))
         (p : Player.t),
    probe_blocked mapLoader (Player.position p) = false ->
    probe_blocked mapLoader (Player.position (play mapLoader ticks p)) = false /\
    (forall layer,
        In layer (MapLoader.layers (MapLoader.map mapLoader)) ->
        MapLoader.type layer = "tilelayer" ->
        MapLoader.out_of_bounds layer
          (fst (Player.probeTile (Player.position (play mapLoader ticks p))))
          (snd (Player.probeTile (Player.position (play mapLoader ticks p))))
          = false /\
        MapLoader.has (MapLoader.collidableTiles mapLoader)
          (MapLoader.data_at layer
             (snd (Player.probeTile (Player.position (play mapLoader ticks p)))
              * MapLoader.layer_width layer
              + fst (Player.probeTile (Player.position (play mapLoader ticks p))))%Z)
          = false) /\
    (forall layer x y,
        In layer (MapLoader.layers (MapLoader.map mapLoader)) ->
        MapLoader.type layer = "tilelayer" ->
        MapLoader.out_of_bounds layer x y = true ->
        MapLoader.isTileBlocked mapLoader x y = true).
Proof.
  intros mapLoader ticks p Hp.
  pose proof (play_probe mapLoader ticks p Hp) as Hplay.
  split; [exact Hplay|]. split.
  - apply isTileBlocked_false. exact Hplay.
  - intros layer x y Hin Hty Hoob.
    destruct (MapLoader.isTileBlocked mapLoader x y) eqn:E; [reflexivity|].
    destruct (proj1 (isTileBlocked_false mapLoader x y) E layer Hin Hty) as [H _].
    congruence.
Qed.

Lemma fresh_player_probe_free :
  probe_blocked open_map (Player.position fresh_player) = false.
Proof.
  unfold probe_blocked, Player.probeTile.
  cbn [fresh_player Player.new Player.position Vec2.x Vec2.y fst snd].
  floor_is 18%Z. floor_is 13%Z. reflexivity.
Qed.

Lemma play_probe_never_blocked_witness :
  probe_blocked open_map (Player.position fresh_player) = false /\
  probe_blocked open_map
    (Player.position (play open_map [[msg_right]; [msg_attack; msg_up]] fresh_player))
    = false.
Proof.
  split; [exact fresh_player_probe_free|].
  apply (play_probe_never_blocked open_map [[msg_right]; [msg_attack; msg_up]]
           fresh_player fresh_player_probe_free).
Defined.

Lemma processInput_right_scenario (mapLoader : MapLoader.t) (p : Player.t) :
  Player.position p = Vec2.mk 300 200 ->
  Player.speed p = 60%R ->
  Player.currentInput p = msg_right ->
  MapLoader.isTileBlocked mapLoader 18 13 = false ->
  Player.position (Player.processInput mapLoader p) = Vec2.mk 303 200.
Proof.
  intros Hpos Hspeed Hinput Hfree.
  assert (Hnew : Player.newPosition p = Vec2.mk 303 200).
  { rewrite newPosition_closed_form, Hpos, Hspeed, Hinput.
    unfold axis, TICK_RATE; cbn. f_equal; lra. }
  rewrite processInput_position, Hnew.
  unfold probe_blocked, Player.probeTile. cbn [Vec2.x Vec2.y fst snd].
  floor_is 18%Z. floor_is 13%Z. rewrite Hfree. reflexivity.
Qed.

(** The scenario of C8 on [open_map], from the player the server creates. *)
Example processInput_right_on_open_map :
  Player.position
    (Player.processInput open_map (Player.setInput msg_right fresh_player))
  = Vec2.mk 303 200.
Proof.
  apply processInput_right_scenario; reflexivity.
Qed.

(** C8.  The candidate position is the position plus, on each axis,
    [speed / TICK_RATE] times (flag towards plus) minus (flag towards
    minus), so opposing flags cancel; when the probe of the candidate is
    blocked the position is unchanged on both axes, otherwise it becomes
    the candidate.  A player at (300, 200) with speed 60 and [{right:
    true}] buffered, whose probe tile (18, 13) is free, ends at
    (303, 200). *)
Theorem processInput_displacement :
  forall (mapLoader : MapLoader.t) (p : Player.t),
    Player.newPosition p =
      Vec2.mk
        (Vec2.x (Player.position p)
         + axis (PlayerInput.right (Player.currentInput p))
                (PlayerInput.left (Player.currentInput p))
           * (Player.speed p / TICK_RATE))
        (Vec2.y (Player.position p)
         + axis (PlayerInput.down (Player.currentInput p))
                (PlayerInput.up (Player.currentInput p))
           * (Player.speed p / TICK_RATE)) /\
    (truthy_flag (PlayerInput.left (Player.currentInput p)) =
     truthy_flag (PlayerInput.right (Player.currentInput p)) ->
     Vec2.x (Player.newPosition p) = Vec2.x (Player.position p)) /\
    (truthy_flag (PlayerInput.up (Player.currentInput p)) =
     truthy_flag (PlayerInput.down (Player.currentInput p)) ->
     Vec2.y (Player.newPosition p) = Vec2.y (Player.position p)) /\
    (probe_blocked mapLoader (Player.newPosition p) = true ->
     Player.position (Player.processInput mapLoader p) = Player.position p) /\
    (probe_blocked mapLoader (Player.newPosition p) = false ->
     Player.position (Player.processInput mapLoader p) = Player.newPosition p) /\
    (Player.position p = Vec2.mk 300 200 ->
     Player.speed p = 60%R ->
     Player.currentInput p = msg_right ->
     MapLoader.isTileBlocked mapLoader 18 13 = false ->
     Player.position (Player.processInput mapLoader p) = Vec2.mk 303 200).
Proof.
  intros mapLoader p.
  split; [apply newPosition_closed_form|].
  split.
  { intros H. rewrite newPosition_closed_form. cbn [Vec2.x]. unfold axis.
    rewrite H. destruct (truthy_flag _); lra. }
  split.
  { intros H. rewrite newPosition_closed_form. cbn [Vec2.y]. unfold axis.
    rewrite H. destruct (truthy_flag _); lra. }
  split.
  { intros H. rewrite processInput_position, H. reflexivity. }
  split.
  { intros H. rewrite processInput_position, H. reflexivity. }
  apply processInput_right_scenario.
Qed.

(** ** Enemy movement *)

Lemma Rleb_true (a b : R) : (a <= b)%R -> Rleb a b = true.
Proof. intros H. unfold Rleb. destruct (Rle_dec a b); [reflexivity|contradiction]. Qed.

Lemma Rleb_false (a b : R) : (b < a)%R -> Rleb a b = false.
Proof. intros H. unfold Rleb. destruct (Rle_dec a b); [lra|reflexivity]. Qed.

Lemma Rltb_true (a b : R) : (a < b)%R -> Rltb a b = true.
Proof. intros H. unfold Rltb. destruct (Rlt_dec a b); [reflexivity|contradiction]. Qed.

Lemma Rltb_false (a b : R) : (b <= a)%R -> Rltb a b = false.
Proof. intros H. unfold Rltb. destruct (Rlt_dec a b); [lra|reflexivity]. Qed.

Lemma clamp_bounds (hi v : R) : (0 <= hi)%R -> (0 <= Enemy.clamp hi v <= hi)%R.
Proof.
  intros Hhi. unfold Enemy.clamp. split.
  - apply Rbasic_fun.Rmax_l.
  - apply Rmax_lub; [exact Hhi|apply Rmin_l].
Qed.

(** [setMovement] either returns at a guard or rewrites direction,
    velocity, timer and action. *)
Lemma setMovement_cases (g : list (string * Player.t)) (a : ActionType) (e : Enemy.t) :
  Enemy.setMovement g a e = e \/
  exists dir v duration,
    Enemy.setMovement g a e =
    Enemy.with_action a
      (Enemy.with_actionTimer duration
         (Enemy.with_velocity v (Enemy.with_direction dir e))).
Proof.
  unfold Enemy.setMovement.
  destruct (negb (truthy_str (Enemy.targetPlayerId e))); [left; reflexivity|].
  destruct (Enemy.targetPlayerId e) as [tid|]; [|left; reflexivity].
  destruct (lookup tid g) as [target|]; [|left; reflexivity].
  right. destruct a; cbn; eexists _, _, _; reflexivity.
Qed.

(** What [setMovement] and [executeAction] leave untouched. *)
Lemma setMovement_frame (g : list (string * Player.t)) (a : ActionType) (e : Enemy.t) :
  Enemy.position (Enemy.setMovement g a e) = Enemy.position e /\
  Enemy.alive (Enemy.setMovement g a e) = Enemy.alive e /\
  Enemy.targetPlayerId (Enemy.setMovement g a e) = Enemy.targetPlayerId e /\
  Enemy.currentActionIndex (Enemy.setMovement g a e) = Enemy.currentActionIndex e /\
  Enemy.health (Enemy.setMovement g a e) = Enemy.health e /\
  Enemy.id (Enemy.setMovement g a e) = Enemy.id e.
Proof.
  destruct (setMovement_cases g a e) as [-> | (dir & v & duration & ->)];
    repeat split.
Qed.

Lemma executeAction_frame (g : list (string * Player.t)) (a : option ActionType)
    (e : Enemy.t) :
  Enemy.position (Enemy.executeAction g a e) = Enemy.position e /\
  Enemy.alive (Enemy.executeAction g a e) = Enemy.alive e /\
  Enemy.targetPlayerId (Enemy.executeAction g a e) = Enemy.targetPlayerId e /\
  Enemy.currentActionIndex (Enemy.executeAction g a e) = Enemy.currentActionIndex e /\
  Enemy.health (Enemy.executeAction g a e) = Enemy.health e /\
  Enemy.id (Enemy.executeAction g a e) = Enemy.id e.
Proof.
  destruct a as [[| | |]|]; unfold Enemy.executeAction;
    try apply setMovement_frame; cbn; repeat split.
Qed.

Lemma setMovement_no_target (g : list (string * Player.t)) (a : ActionType)
    (e : Enemy.t) :
  Enemy.targetPlayerId e = None -> Enemy.setMovement g a e = e.
Proof. intros H. unfold Enemy.setMovement. rewrite H. reflexivity. Qed.

Lemma move_running (g : list (string * Player.t)) (deltaTime : R) (e : Enemy.t) :
  Enemy.alive e = true ->
  (0 < Enemy.actionTimer e - deltaTime)%R ->
  Enemy.move g deltaTime e = advanced deltaTime e.
Proof.
  intros Halive Ht. unfold Enemy.move. rewrite Halive. cbn [negb].
  cbn [Enemy.actionTimer Enemy.with_actionTimer Enemy.with_position].
  rewrite Rleb_false by exact Ht. reflexivity.
Qed.

Lemma move_expired (g : list (string * Player.t)) (deltaTime : R) (e : Enemy.t) :
  Enemy.alive e = true ->
  (Enemy.actionTimer e - deltaTime <= 0)%R ->
  Enemy.move g deltaTime e =
  Enemy.executeAction g
    (Enemy.cycle_at (Enemy.next_index (Enemy.currentActionIndex e)))
    (Enemy.with_currentActionIndex (Enemy.next_index (Enemy.currentActionIndex e))
       (advanced deltaTime e)).
Proof.
  intros Halive Ht. unfold Enemy.move. rewrite Halive. cbn [negb].
  cbn [Enemy.actionTimer Enemy.with_actionTimer Enemy.with_position].
  rewrite Rleb_true by exact Ht. reflexivity.
Qed.

Lemma move_position (g : list (string * Player.t)) (deltaTime : R) (e : Enemy.t) :
  Enemy.alive e = true ->
  Enemy.position (Enemy.move g deltaTime e) = Enemy.position (advanced deltaTime e).
Proof.
  intros Halive.
  destruct (Rle_dec (Enemy.actionTimer e - deltaTime) 0) as [Ht|Ht].
  - rewrite move_expired by assumption.
    rewrite (proj1 (executeAction_frame _ _ _)). reflexivity.
  - rewrite move_running by (try assumption; lra). reflexivity.
Qed.

Lemma findTarget_frame (g ps : list (string * Player.t)) (e : Enemy.t) :
  Enemy.position (Enemy.findTarget g ps e) = Enemy.position e /\
  Enemy.alive (Enemy.findTarget g ps e) = Enemy.alive e /\
  Enemy.health (Enemy.findTarget g ps e) = Enemy.health e /\
  Enemy.id (Enemy.findTarget g ps e) = Enemy.id e.
Proof.
  unfold Enemy.findTarget.
  destruct (Enemy.has_live_target ps e); [repeat split|].
  destruct (fold_left _ ps (None, None)) as [closest m].
  destruct (truthy_str closest); [|repeat split].
  unfold Enemy.executeNextAction.
  match goal with
  | |- context [Enemy.executeAction ?g ?a ?x] =>
      destruct (executeAction_frame g a x) as (-> & -> & _ & _ & -> & ->)
  end.
  repeat split.
Qed.

Lemma performAction_frame (ps : list (string * Player.t)) (e : Enemy.t) :
  Enemy.position (Enemy.performAction ps e) = Enemy.position e /\
  Enemy.alive (Enemy.performAction ps e) = Enemy.alive e /\
  Enemy.health (Enemy.performAction ps e) = Enemy.health e /\
  Enemy.id (Enemy.performAction ps e) = Enemy.id e.
Proof.
  unfold Enemy.performAction.
  destruct (negb (truthy_str (Enemy.targetPlayerId e))); [repeat split|].
  destruct (Enemy.targetPlayerId e) as [tid|]; [|repeat split].
  destruct (lookup tid ps) as [target|];
    [destruct (negb (Player.isAlive target))|]; repeat split.
Qed.

(** C9.  For an alive enemy, [move] sets the position to the old
    position plus velocity times elapsed seconds, clamped to
    [0, 800] x [0, 600]; the map is no argument of [move] nor of the
    enemy part of the tick, whose result lies in the same rectangle. *)
Theorem move_clamps_to_field :
  forall (server_players : list (string * Player.t)) (deltaTime : R) (e : Enemy.t),
    Enemy.alive e = true ->
    Enemy.position (Enemy.move server_players deltaTime e) =
      Vec2.mk
        (Enemy.clamp 800
           (Vec2.x (Enemy.position e)
            + Vec2.x (Enemy.velocity e) * (deltaTime / 1000))%R)
        (Enemy.clamp 600
           (Vec2.y (Enemy.position e)
            + Vec2.y (Enemy.velocity e) * (deltaTime / 1000))%R) /\
    (0 <= Vec2.x (Enemy.position (Enemy.move server_players deltaTime e)) <= 800)%R /\
    (0 <= Vec2.y (Enemy.position (Enemy.move server_players deltaTime e)) <= 600)%R /\
    (0 <= Vec2.x (Enemy.position (Server.updateEnemy server_players deltaTime e))
       <= 800)%R /\
    (0 <= Vec2.y (Enemy.position (Server.updateEnemy server_players deltaTime e))
       <= 600)%R.
Proof.
  intros g dt e Halive.
  assert (Hbox : forall q, Enemy.alive q = true ->
            (0 <= Vec2.x (Enemy.position (Enemy.move g dt q)) <= 800)%R /\
            (0 <= Vec2.y (Enemy.position (Enemy.move g dt q)) <= 600)%R).
  { intros q Hq. rewrite move_position by exact Hq. cbn.
    split; apply clamp_bounds; lra. }
  split; [rewrite move_position by exact Halive; reflexivity|].
  destruct (Hbox e Halive) as [Hx Hy].
  split; [exact Hx|]. split; [exact Hy|].
  unfold Server.updateEnemy. rewrite Halive.
  apply Hbox.
  rewrite (proj1 (proj2 (performAction_frame _ _))).
  rewrite (proj1 (proj2 (findTarget_frame _ _ _))).
  exact Halive.
Qed.

Lemma move_clamps_to_field_witness :
  Enemy.alive chaser = true /\
  (0 <= Vec2.x (Enemy.position (Enemy.move one_player 50 chaser)) <= 800)%R /\
  (0 <= Vec2.y (Enemy.position (Enemy.move one_player 50 chaser)) <= 600)%R.
Proof.
  split; [reflexivity|].
  destruct (move_clamps_to_field one_player 50 chaser eq_refl)
    as (_ & Hx & Hy & _).
  exact (conj Hx Hy).
Defined.

(** ** The behaviour cycle without a target *)

Lemma next_index_range (i : Z) :
  (0 <= i < 5)%Z ->
  Enemy.next_index i = ((i + 1) mod 5)%Z /\ (0 <= Enemy.next_index i < 5)%Z.
Proof.
  intros Hi. unfold Enemy.next_index. cbn [Enemy.actionCycle List.length Z.of_nat].
  change (Z.of_nat 5) with 5%Z.
  rewrite Z.rem_mod_nonneg by lia.
  split; [reflexivity|]. apply Z.mod_pos_bound. lia.
Qed.


(** One call of [move] on an alive enemy without target. *)
Lemma move_no_target (g : list (string * Player.t)) (deltaTime : R) (e : Enemy.t) :
  Enemy.alive e = true ->
  Enemy.targetPlayerId e = None ->
  Enemy.alive (Enemy.move g deltaTime e) = true /\
  Enemy.targetPlayerId (Enemy.move g deltaTime e) = None /\
  ((0 < Enemy.actionTimer e - deltaTime)%R ->
   Enemy.currentActionIndex (Enemy.move g deltaTime e) = Enemy.currentActionIndex e /\
   Enemy.action (Enemy.move g deltaTime e) = Enemy.action e /\
   Enemy.velocity (Enemy.move g deltaTime e) = Enemy.velocity e /\
   Enemy.actionTimer (Enemy.move g deltaTime e)
     = (Enemy.actionTimer e - deltaTime)%R) /\
  ((Enemy.actionTimer e - deltaTime <= 0)%R ->
   Enemy.currentActionIndex (Enemy.move g deltaTime e)
     = Enemy.next_index (Enemy.currentActionIndex e) /\
   (Enemy.cycle_at (Enemy.next_index (Enemy.currentActionIndex e)) = Some idle ->
    Enemy.action (Enemy.move g deltaTime e) = idle /\
    Enemy.velocity (Enemy.move g deltaTime e) = Vec2.zero /\
    Enemy.actionTimer (Enemy.move g deltaTime e) = Enemy.PAUSE_DURATION) /\
   (Enemy.cycle_at (Enemy.next_index (Enemy.currentActionIndex e)) = Some hop \/
    Enemy.cycle_at (Enemy.next_index (Enemy.currentActionIndex e)) = Some longJump ->
    Enemy.action (Enemy.move g deltaTime e) = Enemy.action e /\
    Enemy.velocity (Enemy.move g deltaTime e) = Enemy.velocity e /\
    Enemy.actionTimer (Enemy.move g deltaTime e)
      = (Enemy.actionTimer e - deltaTime)%R)).
Proof.
  intros Halive Hnone.
  destruct (Rle_dec (Enemy.actionTimer e - deltaTime) 0) as [Ht|Ht].
  - rewrite move_expired by assumption.
    set (i := Enemy.next_index (Enemy.currentActionIndex e)).
    set (q := Enemy.with_currentActionIndex i (advanced deltaTime e)).
    assert (Hq : Enemy.targetPlayerId q = None) by exact Hnone.
    destruct (executeAction_frame g (Enemy.cycle_at i) q) as (_ & Ha & Htg & Hi & _).
    split; [rewrite Ha; exact Halive|].
    split; [rewrite Htg; exact Hnone|].
    split; [intros H; lra|].
    intros _. split; [rewrite Hi; reflexivity|].
    split.
    + intros ->. repeat split.
    + intros [-> | ->]; unfold Enemy.executeAction;
        rewrite setMovement_no_target by exact Hq; repeat split.
  - rewrite move_running by (try assumption; lra).
    split; [exact Halive|]. split; [exact Hnone|].
    split; [intros _; repeat split|intros H; lra].
Qed.

(** C5 as stated fails.  A spawned enemy without target reaches the
    longJump slot (index 2) after 1050 ms, but its action is still idle
    and no 600 ms timer is set; 50 ms later the index is already 3. *)
Lemma move_skips_jump_without_target :
  Enemy.targetPlayerId idle_enemy = None /\
  Enemy.currentActionIndex (move_all [] [50; 1000]%R idle_enemy) = 2%Z /\
  Enemy.cycle_at 2 = Some longJump /\
  Enemy.action (move_all [] [50; 1000]%R idle_enemy) = idle /\
  (Enemy.actionTimer (move_all [] [50; 1000]%R idle_enemy) <= 0)%R /\
  Enemy.actionTimer (move_all [] [50; 1000]%R idle_enemy) <> Enemy.LONG_JUMP_DURATION /\
  Enemy.currentActionIndex (move_all [] [50; 1000; 50]%R idle_enemy) = 3%Z.
Proof.
  unfold move_all; cbn [fold_left].
  destruct (move_no_target [] 50 idle_enemy eq_refl eq_refl)
    as (Ha1 & Hn1 & _ & Hexp1).
  destruct Hexp1 as (Hi1 & Hidle1 & _).
  { cbv [idle_enemy Enemy.new Enemy.actionTimer]. lra. }
  destruct (Hidle1 eq_refl) as (Hact1 & _ & Ht1).
  set (e1 := Enemy.move [] 50 idle_enemy) in *.
  destruct (move_no_target [] 1000 e1 Ha1 Hn1) as (Ha2 & Hn2 & _ & Hexp2).
  destruct Hexp2 as (Hi2 & _ & Hjump2).
  { rewrite Ht1. unfold Enemy.PAUSE_DURATION. lra. }
  rewrite Hi1 in Hi2, Hjump2.
  destruct Hjump2 as (Hact2 & _ & Ht2); [right; reflexivity|].
  rewrite Ht1 in Ht2. rewrite Hact1 in Hact2.
  set (e2 := Enemy.move [] 1000 e1) in *.
  destruct (move_no_target [] 50 e2 Ha2 Hn2) as (_ & _ & _ & Hexp3).
  destruct Hexp3 as (Hi3 & _).
  { rewrite Ht2. unfold Enemy.PAUSE_DURATION. lra. }
  rewrite Hi2 in Hi3.
  split; [reflexivity|].
  split; [exact Hi2|].
  split; [reflexivity|].
  split; [exact Hact2|].
  split; [rewrite Ht2; unfold Enemy.PAUSE_DURATION; lra|].
  split; [rewrite Ht2; unfold Enemy.PAUSE_DURATION, Enemy.LONG_JUMP_DURATION; lra|].
  exact Hi3.
Qed.

Lemma cycle_at_range (i : Z) :
  (0 <= i < 5)%Z ->
  Enemy.cycle_at i = Some idle \/
  Enemy.cycle_at i = Some hop \/ Enemy.cycle_at i = Some longJump.
Proof.
  intros Hi.
  assert (H : (i = 0 \/ i = 1 \/ i = 2 \/ i = 3 \/ i = 4)%Z) by lia.
  destruct H as [-> | [-> | [-> | [-> | ->]]]]; cbv; tauto.
Qed.

Lemma move_no_target_invariant (g : list (string * Player.t)) (deltaTime : R)
    (e : Enemy.t) :
  Enemy.alive e = true ->
  Enemy.targetPlayerId e = None ->
  (0 <= Enemy.currentActionIndex e < 5)%Z ->
  Enemy.alive (Enemy.move g deltaTime e) = true /\
  Enemy.targetPlayerId (Enemy.move g deltaTime e) = None /\
  (0 <= Enemy.currentActionIndex (Enemy.move g deltaTime e) < 5)%Z /\
  (Enemy.action (Enemy.move g deltaTime e) = Enemy.action e \/
   Enemy.action (Enemy.move g deltaTime e) = idle).
Proof.
  intros Halive Hnone Hi.
  destruct (move_no_target g deltaTime e Halive Hnone) as (Ha & Hn & Hrun & Hexp).
  split; [exact Ha|]. split; [exact Hn|].
  destruct (next_index_range _ Hi) as [_ Hnext].
  destruct (Rle_dec (Enemy.actionTimer e - deltaTime) 0) as [Ht|Ht].
  - destruct (Hexp Ht) as (Hidx & Hidle & Hjump). rewrite Hidx.
    split; [exact Hnext|].
    destruct (cycle_at_range _ Hnext) as [Hc | Hc].
    + right. apply Hidle, Hc.
    + left. apply Hjump, Hc.
  - destruct Hrun as (Hidx & Hact & _); [lra|]. rewrite Hidx.
    split; [exact Hi|]. left. exact Hact.
Qed.

Lemma move_all_no_target_invariant (g : list (string * Player.t))
    (deltas : list R) (e : Enemy.t) :
  Enemy.alive e = true ->
  Enemy.targetPlayerId e = None ->
  (0 <= Enemy.currentActionIndex e < 5)%Z ->
  Enemy.alive (move_all g deltas e) = true /\
  Enemy.targetPlayerId (move_all g deltas e) = None /\
  (0 <= Enemy.currentActionIndex (move_all g deltas e) < 5)%Z /\
  (Enemy.action (move_all g deltas e) = Enemy.action e \/
   Enemy.action (move_all g deltas e) = idle).
Proof.
  unfold move_all. revert e.
  induction deltas as [|dt deltas IH]; intros e Halive Hnone Hi; cbn [fold_left].
  - repeat split; try assumption; try lia. left. reflexivity.
  - destruct (move_no_target_invariant g dt e Halive Hnone Hi)
      as (Ha & Hn & Hidx & Hact).
    destruct (IH _ Ha Hn Hidx) as (Ha' & Hn' & Hidx' & Hact').
    split; [exact Ha'|]. split; [exact Hn'|]. split; [exact Hidx'|].
    destruct Hact' as [Hact' | Hact']; [|right; exact Hact'].
    rewrite Hact'. exact Hact.
Qed.

(** C5, amended.  An alive enemy without target stays so through any
    sequence of ticks, with its cycle index in [0, 5) and its action
    either unchanged or idle.  At each tick the timer drops by the
    elapsed time; while it stays positive nothing else changes; when it
    reaches [<= 0] the index advances by one modulo 5, an idle slot sets
    action idle, zero velocity and a 1000 ms timer, and a hop or longJump
    slot changes nothing more: action, velocity and the expired timer stay,
    so the next tick advances the index again. *)
Theorem move_cycle_without_target :
  forall (server_players : list (string * Player.t)) (deltas : list R)
         (deltaTime : R) (e : Enemy.t),
    Enemy.alive e = true ->
    Enemy.targetPlayerId e = None ->
    (0 <= Enemy.currentActionIndex e < 5)%Z ->
    Enemy.alive (move_all server_players deltas e) = true /\
    Enemy.targetPlayerId (move_all server_players deltas e) = None /\
    (0 <= Enemy.currentActionIndex (move_all server_players deltas e) < 5)%Z /\
    (Enemy.action (move_all server_players deltas e) = Enemy.action e \/
     Enemy.action (move_all server_players deltas e) = idle) /\
    ((0 < Enemy.actionTimer (move_all server_players deltas e) - deltaTime)%R ->
     Enemy.currentActionIndex
       (Enemy.move server_players deltaTime (move_all server_players deltas e))
       = Enemy.currentActionIndex (move_all server_players deltas e) /\
     Enemy.action
       (Enemy.move server_players deltaTime (move_all server_players deltas e))
       = Enemy.action (move_all server_players deltas e) /\
     Enemy.velocity
       (Enemy.move server_players deltaTime (move_all server_players deltas e))
       = Enemy.velocity (move_all server_players deltas e) /\
     Enemy.actionTimer
       (Enemy.move server_players deltaTime (move_all server_players deltas e))
       = (Enemy.actionTimer (move_all server_players deltas e) - deltaTime)%R) /\
    ((Enemy.actionTimer (move_all server_players deltas e) - deltaTime <= 0)%R ->
     Enemy.currentActionIndex
       (Enemy.move server_players deltaTime (move_all server_players deltas e))
       = ((Enemy.currentActionIndex (move_all server_players deltas e) + 1) mod 5)%Z /\
     (Enemy.cycle_at
        (Enemy.currentActionIndex
           (Enemy.move server_players deltaTime (move_all server_players deltas e)))
        = Some idle ->
      Enemy.action
        (Enemy.move server_players deltaTime (move_all server_players deltas e))
        = idle /\
      Enemy.velocity
        (Enemy.move server_players deltaTime (move_all server_players deltas e))
        = Vec2.zero /\
      Enemy.actionTimer
        (Enemy.move server_players deltaTime (move_all server_players deltas e))
        = 1000%R) /\
     (Enemy.cycle_at
        (Enemy.currentActionIndex
           (Enemy.move server_players deltaTime (move_all server_players deltas e)))
        <> Some idle ->
      Enemy.action
        (Enemy.move server_players deltaTime (move_all server_players deltas e))
        = Enemy.action (move_all server_players deltas e) /\
      Enemy.velocity
        (Enemy.move server_players deltaTime (move_all server_players deltas e))
        = Enemy.velocity (move_all server_players deltas e) /\
      Enemy.actionTimer
        (Enemy.move server_players deltaTime (move_all server_players deltas e))
        = (Enemy.actionTimer (move_all server_players deltas e) - deltaTime)%R)).
Proof.
  intros g deltas dt e Halive Hnone Hi.
  destruct (move_all_no_target_invariant g deltas e Halive Hnone Hi)
    as (Ha & Hn & Hidx & Hact).
  set (q := move_all g deltas e) in *.
  destruct (move_no_target g dt q Ha Hn) as (_ & _ & Hrun & Hexp).
  split; [exact Ha|]. split; [exact Hn|]. split; [exact Hidx|].
  split; [exact Hact|]. split; [exact Hrun|].
  intros Ht. destruct (Hexp Ht) as (Hnext & Hidle & Hjump).
  destruct (next_index_range _ Hidx) as [Hmod Hrange].
  rewrite Hnext.
  split; [exact Hmod|]. split; [exact Hidle|].
  intros Hslot.
  destruct (cycle_at_range _ Hrange) as [Hc | Hc]; [contradiction|].
  apply Hjump, Hc.
Qed.

Lemma move_cycle_without_target_witness :
  Enemy.alive idle_enemy = true /\
  Enemy.targetPlayerId idle_enemy = None /\
  (0 <= Enemy.currentActionIndex idle_enemy < 5)%Z /\
  Enemy.alive (move_all [] [50; 1000]%R idle_enemy) = true /\
  Enemy.targetPlayerId (move_all [] [50; 1000]%R idle_enemy) = None /\
  (0 <= Enemy.currentActionIndex (move_all [] [50; 1000]%R idle_enemy) < 5)%Z.
Proof.
  assert (Hi : (0 <= Enemy.currentActionIndex idle_enemy < 5)%Z).
  { cbv [idle_enemy Enemy.new Enemy.currentActionIndex]. lia. }
  split; [reflexivity|]. split; [reflexivity|]. split; [exact Hi|].
  destruct (move_cycle_without_target [] [50; 1000]%R 50%R idle_enemy
              eq_refl eq_refl Hi) as (Ha & Hn & Hidx & _).
  exact (conj Ha (conj Hn Hidx)).
Defined.

(** ** Targeting *)

Lemma getDistance_eq (a b : Vec2.t) (v : R) :
  (0 <= v)%R ->
  ((Vec2.x a - Vec2.x b) * (Vec2.x a - Vec2.x b)
   + (Vec2.y a - Vec2.y b) * (Vec2.y a - Vec2.y b) = v * v)%R ->
  getDistance a b = v.
Proof.
  intros Hv H. unfold getDistance. cbv zeta. rewrite H. apply sqrt_square, Hv.
Qed.

Lemma truthy_str_some (s : string) : s <> "" -> truthy_str (Some s) = true.
Proof.
  intros H. cbn. apply negb_true_iff, String.eqb_neq, H.
Qed.

Lemma has_live_target_true (ps : list (string * Player.t)) (e : Enemy.t)
    (tid : string) (target : Player.t) :
  Enemy.targetPlayerId e = Some tid ->
  tid <> "" ->
  lookup tid ps = Some target ->
  Player.isAlive target = true ->
  Enemy.has_live_target ps e = true.
Proof.
  intros Htid Hne Hlook Halive. unfold Enemy.has_live_target.
  rewrite Htid, Hlook, Halive, truthy_str_some by exact Hne. reflexivity.
Qed.

Lemma performAction_live (ps : list (string * Player.t)) (e : Enemy.t)
    (tid : string) (target : Player.t) :
  Enemy.targetPlayerId e = Some tid ->
  lookup tid ps = Some target ->
  Player.isAlive target = true ->
  Enemy.performAction ps e = e.
Proof.
  intros Htid Hlook Halive. unfold Enemy.performAction.
  rewrite Htid, Hlook, Halive.
  destruct (negb (truthy_str (Some tid))); reflexivity.
Qed.

Lemma performAction_lost (ps : list (string * Player.t)) (e : Enemy.t)
    (tid : string) :
  Enemy.targetPlayerId e = Some tid ->
  tid <> "" ->
  (lookup tid ps = None \/
   exists target, lookup tid ps = Some target /\ Player.isAlive target = false) ->
  Enemy.performAction ps e =
  Enemy.with_velocity Vec2.zero
    (Enemy.with_action idle (Enemy.with_targetPlayerId None e)).
Proof.
  intros Htid Hne Hlost. unfold Enemy.performAction.
  rewrite Htid, truthy_str_some by exact Hne. cbn [negb].
  destruct Hlost as [-> | (target & -> & ->)]; reflexivity.
Qed.

(** C6 as stated fails.  An enemy 200 units from its live target, far
    beyond the detection radius of 50, keeps the target through the
    targeting step of the tick. *)
Lemma performAction_keeps_distant_target :
  Enemy.targetPlayerId chaser = Some "p1" /\
  lookup "p1" one_player = Some fresh_player /\
  getDistance (Enemy.position chaser) (Player.position fresh_player) = 200%R /\
  (Enemy.detectionRadius < 200)%R /\
  Enemy.performAction one_player (Enemy.findTarget one_player one_player chaser)
    = chaser /\
  Enemy.targetPlayerId
    (Enemy.performAction one_player (Enemy.findTarget one_player one_player chaser))
    = Some "p1".
Proof.
  assert (Hfind : Enemy.findTarget one_player one_player chaser = chaser).
  { unfold Enemy.findTarget.
    rewrite (has_live_target_true one_player chaser "p1" fresh_player);
      try reflexivity. discriminate. }
  assert (Hperf : Enemy.performAction one_player chaser = chaser).
  { apply (performAction_live one_player chaser "p1" fresh_player); reflexivity. }
  split; [reflexivity|]. split; [reflexivity|].
  split.
  { apply getDistance_eq; [lra|].
    cbv [chaser fresh_player Enemy.with_targetPlayerId Enemy.new Player.new
         Enemy.position Player.position Vec2.x Vec2.y]. lra. }
  split; [unfold Enemy.detectionRadius; lra|].
  rewrite Hfind, Hperf. split; reflexivity.
Qed.

(** C6, amended.  [performAction] clears the target, sets the action to
    idle and zeroes the velocity when the player the enemy targets is no
    longer in the player table or is not alive.  A target that is in the
    table and alive is kept by [findTarget] and [performAction] whatever
    its distance. *)
Theorem performAction_clears_lost_target :
  forall (server_players players : list (string * Player.t)) (e : Enemy.t)
         (tid : string),
    Enemy.targetPlayerId e = Some tid ->
    tid <> "" ->
    ((lookup tid players = None \/
      exists target,
        lookup tid players = Some target /\ Player.isAlive target = false) ->
     Enemy.targetPlayerId (Enemy.performAction players e) = None /\
     Enemy.action (Enemy.performAction players e) = idle /\
     Enemy.velocity (Enemy.performAction players e) = Vec2.zero) /\
    (forall target,
        lookup tid players = Some target ->
        Player.isAlive target = true ->
        Enemy.findTarget server_players players e = e /\
        Enemy.performAction players e = e).
Proof.
  intros g ps e tid Htid Hne. split.
  - intros Hlost. rewrite (performAction_lost ps e tid Htid Hne Hlost).
    repeat split.
  - intros target Hlook Halive. split.
    + unfold Enemy.findTarget.
      rewrite (has_live_target_true ps e tid target Htid Hne Hlook Halive).
      reflexivity.
    + exact (performAction_live ps e tid target Htid Hlook Halive).
Qed.

Lemma performAction_clears_lost_target_witness :
  Enemy.targetPlayerId chaser = Some "p1" /\
  "p1" <> "" /\
  Enemy.targetPlayerId (Enemy.performAction [] chaser) = None /\
  Enemy.action (Enemy.performAction [] chaser) = idle /\
  Enemy.velocity (Enemy.performAction [] chaser) = Vec2.zero.
Proof.
  assert (Hne : "p1" <> "") by discriminate.
  split; [reflexivity|]. split; [exact Hne|].
  apply (performAction_clears_lost_target [] [] chaser "p1" eq_refl Hne).
  left. reflexivity.
Defined.



Lemma scan_none (pos : Vec2.t) (ps : list (string * Player.t)) :
  (forall q, In q ps ->
     (Enemy.detectionRadius < getDistance pos (Player.position (snd q)))%R) ->
  fold_left (Enemy.scan_step pos) ps (None, None) = (None, None).
Proof.
  induction ps as [|[k p] ps IH]; intros H; cbn [fold_left].
  - reflexivity.
  - unfold Enemy.scan_step at 2.
    rewrite Rleb_false by (apply (H (k, p)); left; reflexivity).
    rewrite andb_false_r. apply IH. intros q Hq. apply H. right. exact Hq.
Qed.





Lemma findTarget_none_in_range (g ps : list (string * Player.t)) (e : Enemy.t) :
  (forall q, In q ps ->
     (Enemy.detectionRadius
      < getDistance (Enemy.position e) (Player.position (snd q)))%R) ->
  Enemy.findTarget g ps e = e.
Proof.
  intros H. unfold Enemy.findTarget.
  destruct (Enemy.has_live_target ps e); [reflexivity|].
  rewrite (scan_none _ ps H). reflexivity.
Qed.








(** ** Combat *)

Lemma attack_keep (pos : Vec2.t) (es : list (string * Enemy.t))
    (c : option (string * Enemy.t)) (m : R) :
  (forall q, In q es -> Enemy.alive (snd q) = true ->
     (m <= getDistance pos (Enemy.position (snd q)))%R) ->
  fold_left (Server.attack_step pos) es (c, Some m) = (c, Some m).
Proof.
  induction es as [|q es IH]; intros H; cbn [fold_left].
  - reflexivity.
  - assert (Hstep : Server.attack_step pos (c, Some m) q = (c, Some m)).
    { unfold Server.attack_step.
      destruct (Enemy.alive (snd q)) eqn:Ealive; cbn [negb]; [|reflexivity].
      cbn [below].
      rewrite Rltb_false by (apply (H q); [left; reflexivity|exact Ealive]).
      reflexivity. }
    rewrite Hstep. apply IH. intros q' Hq'. apply H. right. exact Hq'.
Qed.

Lemma attack_above (pos : Vec2.t) (v : R) (es : list (string * Enemy.t))
    (c : option (string * Enemy.t)) (m : option R) :
  (forall q, In q es -> Enemy.alive (snd q) = true ->
     (v < getDistance pos (Enemy.position (snd q)))%R) ->
  below v m = true ->
  exists c' m',
    fold_left (Server.attack_step pos) es (c, m) = (c', m') /\ below v m' = true.
Proof.
  revert c m. induction es as [|q es IH]; intros c m H Hm; cbn [fold_left].
  - exists c, m. split; [reflexivity|exact Hm].
  - unfold Server.attack_step at 2.
    destruct (Enemy.alive (snd q)) eqn:Ealive; cbn [negb].
    + destruct (below _ m && Rltb _ Server.attackRadius).
      * apply IH; [intros q' Hq'; apply H; right; exact Hq'|].
        cbn [below]. apply Rltb_true. apply (H q); [left; reflexivity|exact Ealive].
      * apply IH; [intros q' Hq'; apply H; right; exact Hq'|exact Hm].
    + apply IH; [intros q' Hq'; apply H; right; exact Hq'|exact Hm].
Qed.

Lemma closestEnemy_none (pos : Vec2.t) (es : list (string * Enemy.t)) :
  (forall q, In q es -> Enemy.alive (snd q) = true ->
     (Server.attackRadius <= getDistance pos (Enemy.position (snd q)))%R) ->
  Server.closestEnemy pos es = None.
Proof.
  unfold Server.closestEnemy. intros H.
  assert (Hfold : fold_left (Server.attack_step pos) es (None, None) = (None, None)).
  { induction es as [|q es IH]; cbn [fold_left]; [reflexivity|].
    assert (Hstep : Server.attack_step pos (None, None) q = (None, None)).
    { unfold Server.attack_step.
      destruct (Enemy.alive (snd q)) eqn:Ealive; cbn [negb]; [|reflexivity].
      rewrite Rltb_false by (apply (H q); [left; reflexivity|exact Ealive]).
      rewrite andb_false_r. reflexivity. }
    rewrite Hstep. apply IH. intros q' Hq'. apply H. right. exact Hq'. }
  rewrite Hfold. reflexivity.
Qed.

Lemma closestEnemy_finds (pos : Vec2.t) (before after : list (string * Enemy.t))
    (k : string) (e : Enemy.t) :
  Enemy.alive e = true ->
  (getDistance pos (Enemy.position e) < Server.attackRadius)%R ->
  (forall q, In q before -> Enemy.alive (snd q) = true ->
     (getDistance pos (Enemy.position e)
      < getDistance pos (Enemy.position (snd q)))%R) ->
  (forall q, In q after -> Enemy.alive (snd q) = true ->
     (getDistance pos (Enemy.position e)
      <= getDistance pos (Enemy.position (snd q)))%R) ->
  Server.closestEnemy pos (before ++ (k, e) :: after) = Some (k, e).
Proof.
  intros Halive Hin Hbefore Hafter. unfold Server.closestEnemy.
  rewrite fold_left_app.
  destruct (attack_above pos _ before None None Hbefore eq_refl)
    as (c' & m' & -> & Hm').
  cbn [fold_left]. unfold Server.attack_step at 2. cbn [snd].
  rewrite Halive. cbn [negb].
  rewrite Hm', Rltb_true by exact Hin. cbn [andb].
  rewrite attack_keep by exact Hafter. reflexivity.
Qed.

Lemma store_middle {A : Type} (key : string) (v w : A)
    (before after : list (string * A)) :
  ~ In key (List.map fst before) ->
  store key w (before ++ (key, v) :: after) = (before ++ (key, w) :: after)%list.
Proof.
  induction before as [|[k u] before IH]; intros Hnot; cbn.
  - rewrite String.eqb_refl. reflexivity.
  - destruct (String.eqb_spec k key) as [->|Hne].
    + exfalso. apply Hnot. left. reflexivity.
    + f_equal. apply IH. intros Hin. apply Hnot. right. exact Hin.
Qed.

Lemma delete_absent {A : Type} (key : string) (table : list (string * A)) :
  ~ In key (List.map fst table) -> delete key table = table.
Proof.
  induction table as [|[k u] table IH]; intros Hnot; cbn.
  - reflexivity.
  - destruct (String.eqb_spec k key) as [->|Hne]; cbn [negb].
    + exfalso. apply Hnot. left. reflexivity.
    + f_equal. apply IH. intros Hin. apply Hnot. right. exact Hin.
Qed.

Lemma delete_middle {A : Type} (key : string) (v : A)
    (before after : list (string * A)) :
  ~ In key (List.map fst before) ->
  ~ In key (List.map fst after) ->
  delete key (before ++ (key, v) :: after) = (before ++ after)%list.
Proof.
  intros Hb Ha. unfold delete. rewrite filter_app. cbn [filter fst].
  rewrite String.eqb_refl. cbn [negb].
  fold (delete key before). fold (delete key after).
  rewrite !delete_absent by assumption. reflexivity.
Qed.

Lemma lookup_absent {A : Type} (key : string) (table : list (string * A)) :
  ~ In key (List.map fst table) -> lookup key table = None.
Proof.
  induction table as [|[k u] table IH]; intros Hnot; cbn.
  - reflexivity.
  - destruct (String.eqb_spec k key) as [->|Hne].
    + exfalso. apply Hnot. left. reflexivity.
    + apply IH. intros Hin. apply Hnot. right. exact Hin.
Qed.

Lemma lookup_store {A : Type} (key : string) (v w : A) (table : list (string * A)) :
  lookup key table = Some v -> lookup key (store key w table) = Some w.
Proof.
  induction table as [|[k u] table IH]; cbn; [discriminate|].
  destruct (String.eqb_spec k key) as [->|Hne]; cbn.
  - intros _. rewrite String.eqb_refl. reflexivity.
  - intros H. destruct (String.eqb_spec k key); [contradiction|]. apply IH, H.
Qed.

Lemma NoDup_middle (key : string) (bs as' : list string) :
  NoDup (bs ++ key :: as') -> ~ In key bs /\ ~ In key as'.
Proof.
  intros H. apply NoDup_remove_2 in H.
  split; intros Hin; apply H, in_or_app; [left|right]; exact Hin.
Qed.

(** [takeDamage], by cases on the health left. *)
Lemma takeDamage_lethal (amount : Z) (e : Enemy.t) :
  (Enemy.health e - amount <= 0)%Z ->
  Enemy.takeDamage amount e =
  (true, Enemy.with_alive false (Enemy.with_health (Enemy.health e - amount) e)).
Proof.
  intros H. unfold Enemy.takeDamage. cbn [Enemy.health Enemy.with_health].
  destruct (Z.leb_spec (Enemy.health e - amount) 0); [reflexivity|lia].
Qed.

Lemma takeDamage_survived (amount : Z) (e : Enemy.t) :
  (0 < Enemy.health e - amount)%Z ->
  Enemy.takeDamage amount e =
  (false,
   Enemy.with_actionTimer Enemy.PAUSE_DURATION
     (Enemy.with_action confused
        (Enemy.with_velocity Vec2.zero
           (Enemy.with_health (Enemy.health e - amount) e)))).
Proof.
  intros H. unfold Enemy.takeDamage. cbn [Enemy.health Enemy.with_health].
  destruct (Z.leb_spec (Enemy.health e - amount) 0); [lia|reflexivity].
Qed.

(** Three attacks of 10 on an enemy with health 30. *)
Lemma takeDamage_three_hits (e : Enemy.t) :
  Enemy.health e = 30%Z ->
  Enemy.alive e = true ->
  fst (Enemy.takeDamage 10 e) = false /\
  Enemy.alive (snd (Enemy.takeDamage 10 e)) = true /\
  Enemy.action (snd (Enemy.takeDamage 10 e)) = confused /\
  fst (Enemy.takeDamage 10 (snd (Enemy.takeDamage 10 e))) = false /\
  Enemy.alive (snd (Enemy.takeDamage 10 (snd (Enemy.takeDamage 10 e)))) = true /\
  fst (Enemy.takeDamage 10
         (snd (Enemy.takeDamage 10 (snd (Enemy.takeDamage 10 e))))) = true /\
  Enemy.alive
    (snd (Enemy.takeDamage 10
            (snd (Enemy.takeDamage 10 (snd (Enemy.takeDamage 10 e)))))) = false /\
  Enemy.health
    (snd (Enemy.takeDamage 10
            (snd (Enemy.takeDamage 10 (snd (Enemy.takeDamage 10 e)))))) = 0%Z.
Proof.
  intros Hh Ha.
  rewrite (takeDamage_survived 10 e) by lia. cbn [fst snd].
  rewrite (takeDamage_survived 10 _) by (cbn; lia). cbn [fst snd].
  rewrite (takeDamage_lethal 10 _) by (cbn; lia). cbn [fst snd].
  cbn. rewrite Hh, Ha. repeat split.
Qed.

Lemma handleAttack_out_of_reach (playerId : string) (w : Server.World)
    (player : Player.t) :
  lookup playerId (Server.players w) = Some player ->
  (forall q, In q (Server.enemies w) -> Enemy.alive (snd q) = true ->
     (Server.attackRadius
      <= getDistance (Player.position player) (Enemy.position (snd q)))%R) ->
  Server.handleAttack playerId w = w.
Proof.
  intros Hlook Hfar. unfold Server.handleAttack.
  rewrite Hlook, (closestEnemy_none _ _ Hfar). reflexivity.
Qed.

Lemma handleAttack_hit (playerId : string) (w : Server.World) (player : Player.t)
    (before after : list (string * Enemy.t)) (k : string) (e : Enemy.t) :
  lookup playerId (Server.players w) = Some player ->
  enemies_wf (Server.enemies w) ->
  Server.enemies w = (before ++ (k, e) :: after)%list ->
  Enemy.alive e = true ->
  (getDistance (Player.position player) (Enemy.position e) < Server.attackRadius)%R ->
  (forall q, In q before -> Enemy.alive (snd q) = true ->
     (getDistance (Player.position player) (Enemy.position e)
      < getDistance (Player.position player) (Enemy.position (snd q)))%R) ->
  (forall q, In q after -> Enemy.alive (snd q) = true ->
     (getDistance (Player.position player) (Enemy.position e)
      <= getDistance (Player.position player) (Enemy.position (snd q)))%R) ->
  Server.handleAttack playerId w =
  if (Enemy.health e - 10 <=? 0)%Z
  then Server.mkWorld
         (store playerId (snd (Player.gainExp 50 player)) (Server.players w))
         (before ++ after)
  else Server.mkWorld (Server.players w)
         (before ++ (k, snd (Enemy.takeDamage 10 e)) :: after).
Proof.
  intros Hlook [Hnodup Hid] Hes Halive Hin Hbefore Hafter.
  rewrite Hes in Hnodup, Hid.
  rewrite map_app in Hnodup. cbn [List.map fst] in Hnodup.
  destruct (NoDup_middle _ _ _ Hnodup) as [Hkb Hka].
  assert (Hke : Enemy.id e = k).
  { apply Hid, in_or_app. right. left. reflexivity. }
  unfold Server.handleAttack.
  rewrite Hlook, Hes, (closestEnemy_finds _ before after k e Halive Hin Hbefore Hafter).
  destruct (Z.leb_spec (Enemy.health e - 10) 0) as [Hdead|Hlive].
  - rewrite takeDamage_lethal by exact Hdead.
    destruct (Player.gainExp 50 player) as [leveledUp player'].
    cbn [snd Enemy.id Enemy.with_alive Enemy.with_health].
    rewrite Hke, store_middle, delete_middle by assumption. reflexivity.
  - rewrite takeDamage_survived by exact Hlive. cbn [snd].
    rewrite store_middle by assumption. reflexivity.
Qed.

Lemma updatePlayer_enemies (mapLoader : MapLoader.t) (w : Server.World)
    (playerId : string) (player : Player.t) :
  lookup playerId (Server.players w) = Some player ->
  Server.enemies (Server.updatePlayer mapLoader w playerId) =
  if Player.isAttacking player
  then Server.enemies (Server.handleAttack playerId w)
  else Server.enemies w.
Proof.
  intros Hlook. unfold Server.updatePlayer. rewrite Hlook.
  destruct (Player.isAttacking player).
  - destruct (lookup playerId (Server.players (Server.handleAttack playerId w)));
      reflexivity.
  - rewrite Hlook. reflexivity.
Qed.

Lemma arena_wf : enemies_wf (Server.enemies arena).
Proof.
  split.
  - cbn. constructor; [intros []|constructor].
  - intros k e [H | []]. inversion H. reflexivity.
Qed.

(** One attack in [arena]: the enemy 20 units away is hit and survives. *)
Example handleAttack_in_arena :
  Server.handleAttack "p1" arena =
  Server.mkWorld one_player [("e4", snd (Enemy.takeDamage 10 slime))] /\
  Enemy.health (snd (Enemy.takeDamage 10 slime)) = 20%Z /\
  Enemy.action (snd (Enemy.takeDamage 10 slime)) = confused.
Proof.
  split; [|split; reflexivity].
  rewrite (handleAttack_hit "p1" arena fresh_player [] [] "e4" slime);
    try reflexivity.
  - exact arena_wf.
  - rewrite (getDistance_eq _ _ 20); [unfold Server.attackRadius; lra|lra|].
    cbv [slime fresh_player Enemy.new Player.new Enemy.position Player.position
         Vec2.x Vec2.y]. lra.
  - intros q [].
  - intros q [].
Qed.

Lemma gainExp_fields (amount : Z) (p : Player.t) :
  Player.level (snd (Player.gainExp amount p))
    = (if (Player.level p * 100 <=? Player.exp p + amount)%Z
       then Player.level p + 1 else Player.level p)%Z /\
  Player.exp (snd (Player.gainExp amount p))
    = (if (Player.level p * 100 <=? Player.exp p + amount)%Z
       then Player.exp p + amount - Player.level p * 100
       else Player.exp p + amount)%Z /\
  Player.position (snd (Player.gainExp amount p)) = Player.position p /\
  Player.currentInput (snd (Player.gainExp amount p)) = Player.currentInput p.
Proof.
  unfold Player.gainExp. cbn [Player.with_progress Player.level Player.exp].
  destruct (Player.level p * 100 <=? Player.exp p + amount)%Z; repeat split.
Qed.

(** The player step of the tick for an attacking player, given what
    [handleAttack] leaves. *)
Lemma updatePlayer_attacking (mapLoader : MapLoader.t) (w : Server.World)
    (playerId : string) (player player' : Player.t) :
  lookup playerId (Server.players w) = Some player ->
  Player.isAttacking player = true ->
  lookup playerId (Server.players (Server.handleAttack playerId w)) = Some player' ->
  Server.enemies (Server.updatePlayer mapLoader w playerId)
    = Server.enemies (Server.handleAttack playerId w) /\
  lookup playerId (Server.players (Server.updatePlayer mapLoader w playerId))
    = Some (Player.processInput mapLoader player').
Proof.
  intros Hlook Hattack Hlook'. unfold Server.updatePlayer.
  rewrite Hlook, Hattack, Hlook'. cbn [Server.enemies Server.players].
  split; [reflexivity|]. exact (lookup_store playerId player' _ _ Hlook').
Qed.

(** C7 as stated fails at the radius itself.  An alive enemy at distance
    exactly 50 from the attacker is within 50, yet the scan tests
    [distance < 50] and [handleAttack] leaves the world as it was: the
    enemy keeps its 30 health. *)
Lemma handleAttack_misses_at_radius :
  lookup "p1" (Server.players rim) = Some fresh_player /\
  lookup "e5" (Server.enemies rim) = Some rim_slime /\
  Enemy.alive rim_slime = true /\
  getDistance (Player.position fresh_player) (Enemy.position rim_slime) = 50%R /\
  (getDistance (Player.position fresh_player) (Enemy.position rim_slime)
   <= Server.attackRadius)%R /\
  Server.handleAttack "p1" rim = rim /\
  lookup "e5" (Server.enemies (Server.handleAttack "p1" rim)) = Some rim_slime /\
  Enemy.health rim_slime = 30%Z.
Proof.
  assert (Hd : getDistance (Player.position fresh_player) (Enemy.position rim_slime)
               = 50%R).
  { apply getDistance_eq; [lra|].
    cbv [rim_slime fresh_player Enemy.new Player.new Enemy.position Player.position
         Vec2.x Vec2.y]. lra. }
  assert (Hmiss : Server.handleAttack "p1" rim = rim).
  { apply (handleAttack_out_of_reach "p1" rim fresh_player); [reflexivity|].
    intros q [<- | []] _. cbn [snd]. rewrite Hd. unfold Server.attackRadius. lra. }
  split; [reflexivity|]. split; [reflexivity|]. split; [reflexivity|].
  split; [exact Hd|].
  split; [rewrite Hd; unfold Server.attackRadius; lra|].
  split; [exact Hmiss|]. rewrite Hmiss. split; reflexivity.
Qed.

(** C7, amended.  When the attacking player is in the table,
    [handleAttack] leaves the world unchanged if every alive enemy is at
    distance 50 or more; otherwise it hits the alive enemy at the least
    distance strictly below 50 with damage 10.  If the health left is
    [<= 0] the enemy is dead and deleted from the table, and the player is
    replaced by the result of [gainExp(50)]: exp grows by 50, less
    [level*100] with the level raised by one when the threshold is
    reached.  If not, the enemy stays in the table, alive, confused, with
    zero velocity and a 1000 ms timer, and the player is unchanged.  The
    player step of the tick does this for a player whose buffered action
    is "attack", before resolving the input, and leaves the enemies alone
    for any other player.  An enemy with health 30 survives two hits and
    after the third is dead with health 0. *)
Theorem handleAttack_resolves_combat :
  forall (mapLoader : MapLoader.t) (playerId : string) (w : Server.World)
         (player : Player.t),
    lookup playerId (Server.players w) = Some player ->
    enemies_wf (Server.enemies w) ->
    ((forall q, In q (Server.enemies w) -> Enemy.alive (snd q) = true ->
        (50 <= getDistance (Player.position player) (Enemy.position (snd q)))%R) ->
     Server.handleAttack playerId w = w /\
     (Player.isAttacking player = true ->
      Server.enemies (Server.updatePlayer mapLoader w playerId) = Server.enemies w /\
      lookup playerId (Server.players (Server.updatePlayer mapLoader w playerId))
        = Some (Player.processInput mapLoader player))) /\
    (forall before k e after,
        Server.enemies w = (before ++ (k, e) :: after)%list ->
        Enemy.alive e = true ->
        (getDistance (Player.position player) (Enemy.position e) < 50)%R ->
        (forall q, In q before -> Enemy.alive (snd q) = true ->
           (getDistance (Player.position player) (Enemy.position e)
            < getDistance (Player.position player) (Enemy.position (snd q)))%R) ->
        (forall q, In q after -> Enemy.alive (snd q) = true ->
           (getDistance (Player.position player) (Enemy.position e)
            <= getDistance (Player.position player) (Enemy.position (snd q)))%R) ->
        ((Enemy.health e - 10 <= 0)%Z ->
         fst (Enemy.takeDamage 10 e) = true /\
         Enemy.alive (snd (Enemy.takeDamage 10 e)) = false /\
         (Enemy.health (snd (Enemy.takeDamage 10 e)) <= 0)%Z /\
         Server.handleAttack playerId w =
           Server.mkWorld
             (store playerId (snd (Player.gainExp 50 player)) (Server.players w))
             (before ++ after) /\
         lookup k (Server.enemies (Server.handleAttack playerId w)) = None /\
         lookup playerId (Server.players (Server.handleAttack playerId w))
           = Some (snd (Player.gainExp 50 player)) /\
         Player.exp (snd (Player.gainExp 50 player))
           = (if (Player.level player * 100 <=? Player.exp player + 50)%Z
              then Player.exp player + 50 - Player.level player * 100
              else Player.exp player + 50)%Z /\
         Player.level (snd (Player.gainExp 50 player))
           = (if (Player.level player * 100 <=? Player.exp player + 50)%Z
              then Player.level player + 1
              else Player.level player)%Z /\
         (Player.isAttacking player = true ->
          Server.enemies (Server.updatePlayer mapLoader w playerId)
            = (before ++ after)%list /\
          lookup playerId (Server.players (Server.updatePlayer mapLoader w playerId))
            = Some (Player.processInput mapLoader (snd (Player.gainExp 50 player))))) /\
        ((0 < Enemy.health e - 10)%Z ->
         fst (Enemy.takeDamage 10 e) = false /\
         Enemy.alive (snd (Enemy.takeDamage 10 e)) = true /\
         Enemy.health (snd (Enemy.takeDamage 10 e)) = (Enemy.health e - 10)%Z /\
         Enemy.action (snd (Enemy.takeDamage 10 e)) = confused /\
         Enemy.velocity (snd (Enemy.takeDamage 10 e)) = Vec2.zero /\
         Enemy.actionTimer (snd (Enemy.takeDamage 10 e)) = 1000%R /\
         Server.handleAttack playerId w =
           Server.mkWorld (Server.players w)
             (before ++ (k, snd (Enemy.takeDamage 10 e)) :: after) /\
         (Player.isAttacking player = true ->
          Server.enemies (Server.updatePlayer mapLoader w playerId)
            = (before ++ (k, snd (Enemy.takeDamage 10 e)) :: after)%list /\
          lookup playerId (Server.players (Server.updatePlayer mapLoader w playerId))
            = Some (Player.processInput mapLoader player)))) /\
    (Player.isAttacking player = false ->
     Server.enemies (Server.updatePlayer mapLoader w playerId) = Server.enemies w) /\
    (forall e,
        Enemy.health e = 30%Z ->
        Enemy.alive e = true ->
        Enemy.alive (snd (Enemy.takeDamage 10 e)) = true /\
        Enemy.alive (snd (Enemy.takeDamage 10 (snd (Enemy.takeDamage 10 e)))) = true /\
        Enemy.alive
          (snd (Enemy.takeDamage 10
                  (snd (Enemy.takeDamage 10 (snd (Enemy.takeDamage 10 e))))))
          = false /\
        (Enemy.health
           (snd (Enemy.takeDamage 10
                   (snd (Enemy.takeDamage 10 (snd (Enemy.takeDamage 10 e))))))
         <= 0)%Z).
Proof.
  intros mapLoader playerId w player Hlook Hwf.
  split; [|split; [|split]].
  - intros Hfar.
    pose proof (handleAttack_out_of_reach playerId w player Hlook Hfar) as Hmiss.
    split; [exact Hmiss|]. intros Hattack.
    destruct (updatePlayer_attacking mapLoader w playerId player player Hlook Hattack)
      as [He Hp]; [rewrite Hmiss; exact Hlook|].
    rewrite Hmiss in He. split; assumption.
  - intros before k e after Hes Halive Hin Hbefore Hafter.
    pose proof (handleAttack_hit playerId w player before after k e
                  Hlook Hwf Hes Halive Hin Hbefore Hafter) as Hhit.
    destruct Hwf as [Hnodup _]. rewrite Hes, map_app in Hnodup.
    cbn [List.map fst] in Hnodup.
    destruct (NoDup_middle _ _ _ Hnodup) as [Hkb Hka].
    split.
    + intros Hdead.
      rewrite (proj2 (Z.leb_le _ _) Hdead) in Hhit.
      assert (Hplayer :
        lookup playerId (Server.players (Server.handleAttack playerId w))
        = Some (snd (Player.gainExp 50 player))).
      { rewrite Hhit. cbn [Server.players].
        exact (lookup_store playerId player _ _ Hlook). }
      destruct (gainExp_fields 50 player) as (Hlevel & Hexp & _).
      rewrite (takeDamage_lethal 10 e Hdead). cbn [fst snd].
      split; [reflexivity|]. split; [reflexivity|].
      split; [exact Hdead|]. split; [exact Hhit|].
      split.
      { rewrite Hhit. cbn [Server.enemies]. apply lookup_absent.
        rewrite map_app. intros Hin'. apply in_app_or in Hin'. tauto. }
      split; [exact Hplayer|]. split; [exact Hexp|]. split; [exact Hlevel|].
      intros Hattack.
      destruct (updatePlayer_attacking mapLoader w playerId player _
                  Hlook Hattack Hplayer) as [He Hp].
      rewrite Hhit in He. split; assumption.
    + intros Hlive.
      rewrite (proj2 (Z.leb_gt _ _) Hlive) in Hhit.
      assert (Hplayer :
        lookup playerId (Server.players (Server.handleAttack playerId w))
        = Some player).
      { rewrite Hhit. exact Hlook. }
      assert (Htick :
        Player.isAttacking player = true ->
        Server.enemies (Server.updatePlayer mapLoader w playerId)
          = (before ++ (k, snd (Enemy.takeDamage 10 e)) :: after)%list /\
        lookup playerId (Server.players (Server.updatePlayer mapLoader w playerId))
          = Some (Player.processInput mapLoader player)).
      { intros Hattack.
        destruct (updatePlayer_attacking mapLoader w playerId player _
                    Hlook Hattack Hplayer) as [He Hp].
        rewrite Hhit in He. split; assumption. }
      split; [|split; [|split; [|split; [|split; [|split; [|split;
        [exact Hhit|exact Htick]]]]]]];
        rewrite (takeDamage_survived 10 e Hlive); try reflexivity.
      cbn. exact Halive.
  - intros Hidle.
    rewrite (updatePlayer_enemies mapLoader w playerId player Hlook), Hidle.
    reflexivity.
  - intros e Hh Ha.
    destruct (takeDamage_three_hits e Hh Ha) as (_ & H1 & _ & _ & H2 & _ & H3 & H4).
    split; [exact H1|]. split; [exact H2|]. split; [exact H3|].
    rewrite H4. lia.
Qed.

Lemma duel_wf : enemies_wf (Server.enemies duel).
Proof.
  split.
  - cbn. constructor; [intros []|constructor].
  - intros k e [H | []]. inversion H. reflexivity.
Qed.

Lemma handleAttack_resolves_combat_witness :
  lookup "p1" (Server.players duel) = Some attacking_player /\
  enemies_wf (Server.enemies duel) /\
  Player.isAttacking attacking_player = true /\
  Server.enemies (Server.updatePlayer open_map duel "p1") = [] /\
  lookup "e4" (Server.enemies (Server.handleAttack "p1" duel)) = None /\
  Player.exp (snd (Player.gainExp 50 attacking_player)) = 50%Z /\
  Player.level (snd (Player.gainExp 50 attacking_player)) = 1%Z /\
  lookup "p1" (Server.players (Server.updatePlayer open_map duel "p1"))
    = Some (Player.processInput open_map (snd (Player.gainExp 50 attacking_player))).
Proof.
  split; [reflexivity|]. split; [exact duel_wf|]. split; [reflexivity|].
  destruct (handleAttack_resolves_combat open_map "p1" duel attacking_player
              eq_refl duel_wf) as (_ & Hhit & _).
  destruct (Hhit [] "e4" weak_slime []) as [Hkill _].
  - reflexivity.
  - reflexivity.
  - rewrite (getDistance_eq _ _ 20); [lra|lra|].
    cbv [weak_slime slime attacking_player fresh_player Player.setInput
         Player.with_currentInput Enemy.with_health Enemy.new Player.new
         Enemy.position Player.position Vec2.x Vec2.y is_attack msg_attack
         PlayerInput.action PlayerInput.empty Player.currentInput]. lra.
  - intros q [].
  - intros q [].
  - destruct Hkill as (_ & _ & _ & _ & Hgone & _ & Hexp & Hlevel & Htick).
    + cbv [weak_slime slime Enemy.with_health Enemy.new Enemy.health]. lia.
    + destruct (Htick eq_refl) as [He Hp].
      split; [exact He|]. split; [exact Hgone|].
      split; [exact Hexp|]. split; [exact Hlevel|]. exact Hp.
Defined.

(** * Further properties of the code *)

(** ** MapLoader *)

Lemma has_In (s : list Z) (v : Z) : MapLoader.has s (Some v) = true <-> In v s.
Proof.
  cbn. rewrite existsb_exists. split.
  - intros (w & Hin & Heq). apply Z.eqb_eq in Heq. subst. exact Hin.
  - intros Hin. exists v. split; [exact Hin|apply Z.eqb_refl].
Qed.

(** X1.  A global tile id is in the collidable set exactly when some
    tile of some tileset carries a property named "collideable" with a
    truthy value and the id is the tile's local id plus the tileset's
    [firstgid]; a tileset without [tiles] or a tile without [properties]
    contributes nothing. *)
Theorem findCollidableTiles_spec :
  forall (m : MapLoader.Tilemap) (gid : Z),
    MapLoader.has (MapLoader.collidableTiles (MapLoader.load m)) (Some gid) = true
    <->
    exists tileset ts tile props prop,
      In tileset (MapLoader.tilesets m) /\
      MapLoader.tiles tileset = Some ts /\
      In tile ts /\
      MapLoader.properties tile = Some props /\
      In prop props /\
      MapLoader.name prop = "collideable" /\
      MapLoader.value prop = true /\
      gid = (MapLoader.id tile + MapLoader.firstgid tileset)%Z.
Proof.
  intros m gid. rewrite has_In.
  cbn [MapLoader.load MapLoader.collidableTiles].
  unfold MapLoader.findCollidableTiles. rewrite in_flat_map. split.
  - intros (tileset & Hts & Hin). apply in_flat_map in Hin.
    destruct Hin as (tile & Htile & Hgid).
    destruct (MapLoader.tiles tileset) as [ts|] eqn:Etiles; [|destruct Htile].
    destruct (MapLoader.tile_collideable tile) eqn:Ecol; [|destruct Hgid].
    destruct Hgid as [<- | []].
    unfold MapLoader.tile_collideable in Ecol.
    destruct (MapLoader.properties tile) as [props|] eqn:Eprops; [|discriminate].
    apply existsb_exists in Ecol. destruct Ecol as (prop & Hprop & Hboth).
    apply andb_true_iff in Hboth. destruct Hboth as [Hname Hvalue].
    apply String.eqb_eq in Hname.
    exists tileset, ts, tile, props, prop. repeat split; assumption.
  - intros (tileset & ts & tile & props & prop
            & Hts & Etiles & Htile & Eprops & Hprop & Hname & Hvalue & ->).
    exists tileset. split; [exact Hts|].
    apply in_flat_map. exists tile. rewrite Etiles. split; [exact Htile|].
    assert (Ecol : MapLoader.tile_collideable tile = true).
    { unfold MapLoader.tile_collideable. rewrite Eprops.
      apply existsb_exists. exists prop. split; [exact Hprop|].
      rewrite Hname, Hvalue. reflexivity. }
    rewrite Ecol. left. reflexivity.
Qed.

(** X2.  [isTileBlocked] answers [true] exactly when some layer of type
    "tilelayer" has the coordinate outside its bounds or holds a
    collidable tile id at index [y * width + x]; layers of another type
    are skipped, so a map without tile layer blocks no coordinate at
    all. *)
Theorem isTileBlocked_true :
  forall (ml : MapLoader.t) (x y : Z),
    (MapLoader.isTileBlocked ml x y = true <->
     exists layer,
       In layer (MapLoader.layers (MapLoader.map ml)) /\
       MapLoader.type layer = "tilelayer" /\
       (MapLoader.out_of_bounds layer x y = true \/
        MapLoader.has (MapLoader.collidableTiles ml)
          (MapLoader.data_at layer (y * MapLoader.layer_width layer + x)%Z)
          = true)) /\
    ((forall layer,
         In layer (MapLoader.layers (MapLoader.map ml)) ->
         MapLoader.type layer <> "tilelayer") ->
     MapLoader.isTileBlocked ml x y = false).
Proof.
  intros ml x y.
  assert (Hiff :
    MapLoader.isTileBlocked ml x y = true <->
    exists layer,
      In layer (MapLoader.layers (MapLoader.map ml)) /\
      MapLoader.type layer = "tilelayer" /\
      (MapLoader.out_of_bounds layer x y = true \/
       MapLoader.has (MapLoader.collidableTiles ml)
         (MapLoader.data_at layer (y * MapLoader.layer_width layer + x)%Z)
         = true)).
  { split.
    - intros Hblocked.
      destruct (MapLoader.isTileBlocked ml x y) eqn:E; [clear Hblocked|discriminate].
      unfold MapLoader.isTileBlocked in E.
      induction (MapLoader.layers (MapLoader.map ml)) as [|l ls IH];
        cbn [MapLoader.blocked_in] in E; [discriminate|].
      destruct (MapLoader.type l =? "tilelayer") eqn:Etype; cbn [negb] in E.
      + apply String.eqb_eq in Etype.
        destruct (MapLoader.out_of_bounds l x y) eqn:Eoob.
        * exists l. split; [left; reflexivity|]. split; [exact Etype|left; exact Eoob].
        * destruct (MapLoader.has _ _) eqn:Ehas.
          -- exists l. split; [left; reflexivity|].
             split; [exact Etype|right; exact Ehas].
          -- destruct (IH E) as (layer & Hin & Hrest).
             exists layer. split; [right; exact Hin|exact Hrest].
      + destruct (IH E) as (layer & Hin & Hrest).
        exists layer. split; [right; exact Hin|exact Hrest].
    - intros (layer & Hin & Hty & Hwhy).
      destruct (MapLoader.isTileBlocked ml x y) eqn:E; [reflexivity|].
      destruct (proj1 (isTileBlocked_false ml x y) E layer Hin Hty) as [Hoob Hhas].
      destruct Hwhy; congruence. }
  split; [exact Hiff|].
  intros Hnone.
  destruct (MapLoader.isTileBlocked ml x y) eqn:E; [|reflexivity].
  destruct (proj1 Hiff eq_refl) as (layer & Hin & Hty & _).
  exfalso. exact (Hnone layer Hin Hty).
Qed.

(** ** Player *)

Lemma processInput_empty_buffer (mapLoader : MapLoader.t) (p : Player.t) :
  Player.currentInput p = PlayerInput.empty ->
  Player.processInput mapLoader p = p.
Proof.
  destruct p as [pid [px py] lvl ex hp sid dir act al sp buf].
  cbn [Player.currentInput]. intros ->.
  unfold Player.processInput, Player.newPosition.
  cbn [Player.currentInput Player.position Player.speed PlayerInput.empty
       PlayerInput.left PlayerInput.right PlayerInput.up PlayerInput.down
       PlayerInput.direction PlayerInput.action truthy_flag Vec2.x Vec2.y].
  destruct (Player.probeTile (Vec2.mk px py)) as [tx ty].
  destruct (MapLoader.isTileBlocked mapLoader tx ty); reflexivity.
Qed.

(** X3.  [processInput] empties the input buffer; on a player whose
    buffer is empty it changes nothing, whatever the map answers; hence
    running it again without a new message changes nothing, and a
    buffered input moves the player at most once. *)
Theorem processInput_idempotent :
  forall (mapLoader : MapLoader.t) (p : Player.t),
    Player.currentInput (Player.processInput mapLoader p) = PlayerInput.empty /\
    Player.isAttacking (Player.processInput mapLoader p) = false /\
    (Player.currentInput p = PlayerInput.empty ->
     Player.processInput mapLoader p = p) /\
    Player.processInput mapLoader (Player.processInput mapLoader p)
    = Player.processInput mapLoader p /\
    Player.position (Player.processInput mapLoader (Player.processInput mapLoader p))
    = Player.position (Player.processInput mapLoader p).
Proof.
  intros mapLoader p.
  pose proof (processInput_clears mapLoader p) as Hclear.
  pose proof (processInput_empty_buffer mapLoader _ Hclear) as Hagain.
  split; [exact Hclear|].
  split; [unfold Player.isAttacking; rewrite Hclear; reflexivity|].
  split; [exact (processInput_empty_buffer mapLoader p)|].
  split; [exact Hagain|]. rewrite Hagain. reflexivity.
Qed.

(** X4.  Of the messages that arrive between two ticks only the last
    one's flags and direction reach [processInput]; its action is
    replaced by "attack" when "attack" was buffered before or any earlier
    message of the batch set it. *)
Theorem setInput_all_last :
  forall (earlier : list PlayerInput.t) (last : PlayerInput.t) (p : Player.t),
    Player.currentInput (setInput_all (earlier ++ [last]) p) =
    if Player.isAttacking p
       || existsb (fun i => is_attack (PlayerInput.action i)) earlier
    then PlayerInput.with_action (Some "attack") last
    else last.
Proof.
  induction earlier as [|i earlier IH]; intros last p.
  - cbn [app setInput_all fold_left existsb]. rewrite orb_false_r.
    unfold Player.setInput, Player.isAttacking.
    destruct (is_attack (PlayerInput.action (Player.currentInput p))); reflexivity.
  - cbn [app existsb]. unfold setInput_all in *. cbn [fold_left].
    rewrite IH, setInput_isAttacking, orb_assoc. reflexivity.
Qed.

Lemma gainExp_level (amount : Z) (p : Player.t) :
  (Player.level p <= Player.level (snd (Player.gainExp amount p)))%Z.
Proof.
  unfold Player.gainExp. cbn [Player.with_progress Player.level Player.exp].
  destruct (_ <=? _)%Z; cbn; lia.
Qed.

(** X5.  Gains between 0 and 100, such as the 50 of a kill, keep
    [0 <= exp < level*100] through any number of calls, for a player of
    level 1 or more. *)
Theorem gainExp_all_keeps_invariant :
  forall (amounts : list Z) (p : Player.t),
    Forall (fun amount => 0 <= amount <= 100)%Z amounts ->
    level_invariant p ->
    (1 <= Player.level p)%Z ->
    level_invariant (gainExp_all amounts p) /\
    (Player.level p <= Player.level (gainExp_all amounts p))%Z.
Proof.
  unfold gainExp_all.
  induction amounts as [|amount amounts IH]; intros p Hall Hinv Hlevel;
    cbn [fold_left].
  - split; [exact Hinv|lia].
  - inversion Hall as [|? ? Hamount Hrest]; subst.
    pose proof (gainExp_level amount p) as Hup.
    destruct (IH (snd (Player.gainExp amount p)) Hrest) as [Hinv' Hlevel'].
    + apply gainExp_invariant_one_threshold; [exact Hinv|lia|].
      destruct Hinv as [_ Hhi]. nia.
    + lia.
    + split; [exact Hinv'|lia].
Qed.

Lemma gainExp_all_keeps_invariant_witness :
  level_invariant fresh_player /\
  level_invariant (gainExp_all [50; 50; 50; 100]%Z fresh_player).
Proof.
  assert (Hinv : level_invariant fresh_player) by (unfold level_invariant; cbn; lia).
  split; [exact Hinv|].
  apply (gainExp_all_keeps_invariant [50; 50; 50; 100]%Z fresh_player).
  - repeat constructor; lia.
  - exact Hinv.
  - cbn. lia.
Defined.

Lemma gainExp_total (amount : Z) (p : Player.t) :
  total_exp (snd (Player.gainExp amount p)) = (total_exp p + amount)%Z.
Proof.
  unfold total_exp, Player.gainExp.
  cbn [Player.with_progress Player.level Player.exp].
  destruct (_ <=? _)%Z; cbn [snd Player.with_progress Player.level Player.exp]; nia.
Qed.

(** X6.  Leveling neither loses nor creates experience: the exp held
    plus the thresholds of the levels passed grows by exactly the amounts
    gained, for any amounts and any number of calls; a call returns [true]
    exactly when it raised the level, and it raises it by one. *)
Theorem gainExp_conserves_total :
  forall (amounts : list Z) (amount : Z) (p : Player.t),
    total_exp (gainExp_all amounts p)
      = (total_exp p + fold_right Z.add 0 amounts)%Z /\
    Player.level (snd (Player.gainExp amount p))
      = (Player.level p + (if fst (Player.gainExp amount p) then 1 else 0))%Z /\
    (fst (Player.gainExp amount p) = true
     <-> (Player.level p * 100 <= Player.exp p + amount)%Z).
Proof.
  intros amounts amount p. split; [|split].
  - unfold gainExp_all. revert p.
    induction amounts as [|a amounts IH]; intros p; cbn [fold_left fold_right].
    + lia.
    + rewrite IH, gainExp_total. lia.
  - unfold Player.gainExp. cbn [Player.with_progress Player.level Player.exp].
    destruct (_ <=? _)%Z; cbn; lia.
  - unfold Player.gainExp. cbn [Player.with_progress Player.level Player.exp].
    destruct (Z.leb_spec (Player.level p * 100) (Player.exp p + amount));
      cbn [fst]; split; intros H'; try reflexivity; try discriminate; lia.
Qed.

(** ** Enemy *)

Lemma takeDamage_fields (amount : Z) (e : Enemy.t) :
  Enemy.health (snd (Enemy.takeDamage amount e)) = (Enemy.health e - amount)%Z /\
  Enemy.alive (snd (Enemy.takeDamage amount e))
    = Enemy.alive e && (0 <? Enemy.health e - amount)%Z /\
  Enemy.id (snd (Enemy.takeDamage amount e)) = Enemy.id e /\
  Enemy.position (snd (Enemy.takeDamage amount e)) = Enemy.position e /\
  Enemy.targetPlayerId (snd (Enemy.takeDamage amount e)) = Enemy.targetPlayerId e /\
  Enemy.currentActionIndex (snd (Enemy.takeDamage amount e))
    = Enemy.currentActionIndex e.
Proof.
  destruct (Z.leb_spec (Enemy.health e - amount) 0) as [H|H].
  - rewrite takeDamage_lethal by exact H. cbn.
    rewrite (proj2 (Z.ltb_ge _ _) H), andb_false_r. repeat split.
  - rewrite takeDamage_survived by exact H. cbn.
    rewrite (proj2 (Z.ltb_lt _ _) H), andb_true_r. repeat split.
Qed.

Lemma hits_dead (n : nat) (amount : Z) (e : Enemy.t) :
  Enemy.alive e = false -> Enemy.alive (hits n amount e) = false.
Proof.
  revert e. induction n as [|n IH]; intros e He; cbn [hits]; [exact He|].
  apply IH. destruct (takeDamage_fields amount e) as (_ & -> & _).
  rewrite He. reflexivity.
Qed.

Lemma hits_frame (n : nat) (amount : Z) (e : Enemy.t) :
  Enemy.health (hits n amount e) = (Enemy.health e - Z.of_nat n * amount)%Z /\
  Enemy.targetPlayerId (hits n amount e) = Enemy.targetPlayerId e /\
  Enemy.currentActionIndex (hits n amount e) = Enemy.currentActionIndex e.
Proof.
  revert e. induction n as [|n IH]; intros e; cbn [hits].
  - split; [cbn; lia|split; reflexivity].
  - destruct (takeDamage_fields amount e) as (Hh & _ & _ & _ & Ht & Hi).
    destruct (IH (snd (Enemy.takeDamage amount e))) as (-> & -> & ->).
    rewrite Hh, Ht, Hi. split; [lia|split; reflexivity].
Qed.

Lemma hits_alive (n : nat) (amount : Z) (e : Enemy.t) :
  Enemy.alive e = true ->
  (0 <= amount)%Z ->
  Enemy.alive (hits n amount e) = true
  <-> (Z.of_nat n * amount < Enemy.health e)%Z \/ n = O.
Proof.
  revert e. induction n as [|n IH]; intros e Halive Hamount; cbn [hits].
  - split; [intros _; right; reflexivity|intros _; exact Halive].
  - destruct (takeDamage_fields amount e) as (Hh & Ha & _).
    rewrite Halive in Ha. cbn [andb] in Ha.
    destruct (Z.ltb_spec 0 (Enemy.health e - amount)) as [Hpos|Hneg].
    + rewrite (IH _ Ha Hamount), Hh. split.
      * intros [H | ->]; left; lia.
      * intros [H | H]; [|discriminate]. destruct n; [right; reflexivity|left; lia].
    + rewrite (hits_dead n amount _ Ha). split; [discriminate|].
      intros [H | H]; [|discriminate]. nia.
Qed.

(** X7.  Under repeated damage of a fixed amount [>= 0] the health
    drops by the amount at every hit, also below zero; an alive enemy is
    still alive after [n] hits exactly when [n * amount] is less than its
    health, and no hit makes a dead enemy alive again.  Target and cycle
    index are left as they were. *)
Theorem hits_alive_iff :
  forall (n : nat) (amount : Z) (e : Enemy.t),
    Enemy.alive e = true ->
    (0 <= amount)%Z ->
    Enemy.health (hits n amount e) = (Enemy.health e - Z.of_nat n * amount)%Z /\
    (Enemy.alive (hits n amount e) = true
     <-> (Z.of_nat n * amount < Enemy.health e)%Z \/ n = O) /\
    (forall q, Enemy.alive q = false -> Enemy.alive (hits n amount q) = false) /\
    Enemy.targetPlayerId (hits n amount e) = Enemy.targetPlayerId e /\
    Enemy.currentActionIndex (hits n amount e) = Enemy.currentActionIndex e.
Proof.
  intros n amount e Halive Hamount.
  destruct (hits_frame n amount e) as (Hh & Ht & Hi).
  split; [exact Hh|]. split; [exact (hits_alive n amount e Halive Hamount)|].
  split; [intros q Hq; exact (hits_dead n amount q Hq)|].
  split; assumption.
Qed.

Lemma hits_alive_iff_witness :
  Enemy.alive slime = true /\
  Enemy.health (hits 2 10 slime) = (Enemy.health slime - Z.of_nat 2 * 10)%Z.
Proof.
  split; [reflexivity|].
  apply (hits_alive_iff 2 10 slime eq_refl). lia.
Defined.

Local Open Scope R_scope.

Lemma norm_pos (x y : R) : x <> 0 \/ y <> 0 -> 0 < sqrt (x * x + y * y).
Proof.
  intros H. apply sqrt_lt_R0. destruct H; nra.
Qed.

Lemma sqrt_one_plus_sq (x y : R) :
  x <> 0 -> sqrt (1 + (y / x)²) = sqrt (x * x + y * y) / Rabs x.
Proof.
  intros Hx.
  replace (1 + (y / x)²) with ((x * x + y * y) / (x * x))
    by (unfold Rsqr; field; exact Hx).
  rewrite sqrt_div; [|nra|nra].
  fold (Rsqr x). rewrite sqrt_Rsqr_abs. reflexivity.
Qed.

Lemma cos_sin_atan_quot (x y : R) :
  x <> 0 ->
  cos (atan (y / x)) = Rabs x / sqrt (x * x + y * y) /\
  sin (atan (y / x)) = (y / x) * (Rabs x / sqrt (x * x + y * y)).
Proof.
  intros Hx.
  pose proof (norm_pos x y (or_introl Hx)) as Hd.
  assert (Habs : Rabs x <> 0) by (apply Rabs_no_R0; exact Hx).
  rewrite cos_atan, sin_atan, sqrt_one_plus_sq by exact Hx.
  split; field; split; lra.
Qed.

(** [Math.atan2] returns the angle of the vector [(x, y)]. *)
Lemma atan2_cos_sin (x y : R) :
  x <> 0 \/ y <> 0 ->
  cos (Math_atan2 y x) = x / sqrt (x * x + y * y) /\
  sin (Math_atan2 y x) = y / sqrt (x * x + y * y).
Proof.
  intros Hxy. pose proof (norm_pos x y Hxy) as Hd.
  unfold Math_atan2.
  destruct (Rlt_dec 0 x) as [Hpos|Hnpos].
  - rewrite Rltb_true by exact Hpos.
    destruct (cos_sin_atan_quot x y) as [-> ->]; [lra|].
    rewrite Rabs_right by lra. split; field; lra.
  - rewrite Rltb_false by lra.
    destruct (Rlt_dec x 0) as [Hneg|Hnneg].
    + rewrite Rltb_true by exact Hneg.
      destruct (cos_sin_atan_quot x y) as [Hc Hs]; [lra|].
      rewrite Rabs_left in Hc, Hs by exact Hneg.
      destruct (Rle_dec 0 y) as [Hy|Hy].
      * rewrite Rleb_true by exact Hy.
        rewrite neg_cos, neg_sin, Hc, Hs. split; field; lra.
      * rewrite Rleb_false by lra.
        rewrite cos_minus, sin_minus, cos_PI, sin_PI, Hc, Hs. split; field; lra.
    + rewrite Rltb_false by lra.
      assert (Hx : x = 0) by lra. subst x.
      assert (Hy : y <> 0) by (destruct Hxy; [lra|assumption]).
      replace (0 * 0 + y * y) with (Rsqr y) by (unfold Rsqr; ring).
      rewrite sqrt_Rsqr_abs.
      destruct (Rlt_dec 0 y) as [Hypos|Hyneg].
      * rewrite Rltb_true by exact Hypos.
        rewrite cos_PI2, sin_PI2, Rabs_right by lra. split; field; lra.
      * rewrite Rltb_false by lra. rewrite Rltb_true by lra.
        rewrite cos_neg, sin_neg, cos_PI2, sin_PI2, Rabs_left by lra.
        split; field; lra.
Qed.

Lemma setMovement_velocity (g : list (string * Player.t)) (a : ActionType)
    (e : Enemy.t) (tid : string) (target : Player.t) :
  Enemy.targetPlayerId e = Some tid ->
  tid <> ""%string ->
  lookup tid g = Some target ->
  a = hop \/ a = longJump ->
  Enemy.velocity (Enemy.setMovement g a e) =
    Vec2.mk
      (cos (Math_atan2
              (Vec2.y (Player.position target) - Vec2.y (Enemy.position e))
              (Vec2.x (Player.position target) - Vec2.x (Enemy.position e)))
       * speed_of a)
      (sin (Math_atan2
              (Vec2.y (Player.position target) - Vec2.y (Enemy.position e))
              (Vec2.x (Player.position target) - Vec2.x (Enemy.position e)))
       * speed_of a) /\
  Enemy.action (Enemy.setMovement g a e) = a /\
  Enemy.actionTimer (Enemy.setMovement g a e) = duration_of a.
Proof.
  intros Htid Hne Hlook Ha. unfold Enemy.setMovement.
  rewrite Htid, truthy_str_some, Hlook by exact Hne. cbn [negb].
  destruct Ha as [-> | ->]; repeat split.
Qed.

(** X8.  When the enemy's target is in the player table, [setMovement]
    enters the movement with its timer (hop 1000 ms, longJump 600 ms) and
    a velocity of norm 10 units/s for hop and 100 units/s for longJump,
    which covers 10 or 60 units over the timer; when the target is not at
    the enemy's own position the velocity points from the enemy to the
    target: it is the speed times the unit vector of the offset. *)
Theorem setMovement_heads_to_target :
  forall (server_players : list (string * Player.t)) (a : ActionType)
         (e : Enemy.t) (tid : string) (target : Player.t),
    Enemy.targetPlayerId e = Some tid ->
    tid <> ""%string ->
    lookup tid server_players = Some target ->
    a = hop \/ a = longJump ->
    Enemy.action (Enemy.setMovement server_players a e) = a /\
    Enemy.actionTimer (Enemy.setMovement server_players a e) = duration_of a /\
    Vec2.x (Enemy.velocity (Enemy.setMovement server_players a e))
      * Vec2.x (Enemy.velocity (Enemy.setMovement server_players a e))
    + Vec2.y (Enemy.velocity (Enemy.setMovement server_players a e))
      * Vec2.y (Enemy.velocity (Enemy.setMovement server_players a e))
    = speed_of a * speed_of a /\
    speed_of hop = 10 /\
    speed_of longJump = 100 /\
    speed_of a * (duration_of a / 1000) = match a with hop => 10 | _ => 60 end /\
    (Player.position target <> Enemy.position e ->
     Enemy.velocity (Enemy.setMovement server_players a e) =
       Vec2.mk
         (speed_of a
          * ((Vec2.x (Player.position target) - Vec2.x (Enemy.position e))
             / getDistance (Player.position target) (Enemy.position e)))
         (speed_of a
          * ((Vec2.y (Player.position target) - Vec2.y (Enemy.position e))
             / getDistance (Player.position target) (Enemy.position e)))).
Proof.
  intros g a e tid target Htid Hne Hlook Ha.
  destruct (setMovement_velocity g a e tid target Htid Hne Hlook Ha)
    as (Hv & Hact & Htimer).
  split; [exact Hact|]. split; [exact Htimer|].
  split.
  { rewrite Hv. cbn [Vec2.x Vec2.y].
    match goal with
    | |- context [cos ?t] => pose proof (sin2_cos2 t) as Hunit
    end.
    unfold Rsqr in Hunit. nra. }
  split; [unfold speed_of, Enemy.HOP_DISTANCE, Enemy.MOVE_DURATION; field|].
  split; [unfold speed_of, Enemy.LONG_JUMP_DISTANCE, Enemy.LONG_JUMP_DURATION; field|].
  split.
  { destruct Ha as [-> | ->];
      unfold speed_of, duration_of, Enemy.HOP_DISTANCE, Enemy.MOVE_DURATION,
        Enemy.LONG_JUMP_DISTANCE, Enemy.LONG_JUMP_DURATION; field. }
  intros Hapart. rewrite Hv.
  assert (Hxy :
    Vec2.x (Player.position target) - Vec2.x (Enemy.position e) <> 0 \/
    Vec2.y (Player.position target) - Vec2.y (Enemy.position e) <> 0).
  { destruct (Player.position target) as [tx ty], (Enemy.position e) as [ex ey].
    cbn [Vec2.x Vec2.y].
    destruct (Req_dec (tx - ex) 0) as [Hx|Hx]; [|left; exact Hx].
    destruct (Req_dec (ty - ey) 0) as [Hy|Hy]; [|right; exact Hy].
    exfalso. apply Hapart. f_equal; lra. }
  destruct (atan2_cos_sin _ _ Hxy) as [-> ->].
  unfold getDistance. cbv zeta.
  pose proof (norm_pos _ _ Hxy) as Hd.
  f_equal; field; lra.
Qed.

Lemma setMovement_heads_to_target_witness :
  Enemy.targetPlayerId chaser = Some "p1"%string /\
  Enemy.action (Enemy.setMovement one_player hop chaser) = hop /\
  Enemy.actionTimer (Enemy.setMovement one_player hop chaser) = duration_of hop.
Proof.
  split; [reflexivity|].
  destruct (setMovement_heads_to_target one_player hop chaser "p1"%string
              fresh_player eq_refl) as (Ha & Ht & _).
  - discriminate.
  - reflexivity.
  - left. reflexivity.
  - exact (conj Ha Ht).
Defined.

Local Close Scope R_scope.

(** X9.  For an alive enemy whose target is in the player table, a tick
    that brings the timer to [<= 0] advances the cycle index by one
    modulo 5 and enters the action of the new slot with its duration:
    hop with 1000 ms, longJump with 600 ms, idle with 1000 ms and zero
    velocity.  The target is kept. *)
Theorem move_cycle_with_target :
  forall (server_players : list (string * Player.t)) (deltaTime : R)
         (e : Enemy.t) (tid : string) (target : Player.t),
    Enemy.alive e = true ->
    Enemy.targetPlayerId e = Some tid ->
    tid <> "" ->
    lookup tid server_players = Some target ->
    (0 <= Enemy.currentActionIndex e < 5)%Z ->
    (Enemy.actionTimer e - deltaTime <= 0)%R ->
    Enemy.currentActionIndex (Enemy.move server_players deltaTime e)
      = ((Enemy.currentActionIndex e + 1) mod 5)%Z /\
    Enemy.cycle_at (Enemy.currentActionIndex (Enemy.move server_players deltaTime e))
      = Some (Enemy.action (Enemy.move server_players deltaTime e)) /\
    Enemy.actionTimer (Enemy.move server_players deltaTime e)
      = duration_of (Enemy.action (Enemy.move server_players deltaTime e)) /\
    (Enemy.action (Enemy.move server_players deltaTime e) = idle ->
     Enemy.velocity (Enemy.move server_players deltaTime e) = Vec2.zero) /\
    Enemy.targetPlayerId (Enemy.move server_players deltaTime e) = Some tid.
Proof.
  intros g dt e tid target Halive Htid Hne Hlook Hi Ht.
  rewrite move_expired by assumption.
  destruct (next_index_range _ Hi) as [Hmod Hrange].
  set (i := Enemy.next_index (Enemy.currentActionIndex e)) in *.
  set (q := Enemy.with_currentActionIndex i (advanced dt e)).
  assert (Hq : Enemy.targetPlayerId q = Some tid) by exact Htid.
  assert (Hqi : Enemy.currentActionIndex q = i) by reflexivity.
  destruct (executeAction_frame g (Enemy.cycle_at i) q) as (_ & _ & Htg & Hidx & _).
  rewrite Hidx, Htg, Hqi, Hq.
  split; [exact Hmod|].
  destruct (cycle_at_range i Hrange) as [Hc | [Hc | Hc]]; rewrite Hc.
  - cbn. repeat split.
  - unfold Enemy.executeAction.
    destruct (setMovement_velocity g hop q tid target Hq Hne Hlook (or_introl eq_refl))
      as (_ & Ha & Htimer).
    rewrite Ha, Htimer. repeat split. discriminate.
  - unfold Enemy.executeAction.
    destruct (setMovement_velocity g longJump q tid target Hq Hne Hlook
                (or_intror eq_refl)) as (_ & Ha & Htimer).
    rewrite Ha, Htimer. repeat split. discriminate.
Qed.

Lemma move_cycle_with_target_witness :
  Enemy.alive chaser = true /\
  Enemy.currentActionIndex (Enemy.move one_player 50 chaser) = ((0 + 1) mod 5)%Z /\
  Enemy.targetPlayerId (Enemy.move one_player 50 chaser) = Some "p1".
Proof.
  split; [reflexivity|].
  destruct (move_cycle_with_target one_player 50 chaser "p1" fresh_player)
    as (Hi & _ & _ & _ & Ht); try reflexivity.
  - discriminate.
  - cbv [chaser Enemy.with_targetPlayerId Enemy.new Enemy.currentActionIndex]. lia.
  - cbv [chaser Enemy.with_targetPlayerId Enemy.new Enemy.actionTimer]. lra.
  - exact (conj Hi Ht).
Defined.

(** The scan of [findTarget], read from its result. *)
Lemma scan_result (pos : Vec2.t) (ps : list (string * Player.t))
    (c : option string) (m : option R) :
  let r := fold_left (Enemy.scan_step pos) ps (c, m) in
  (forall q, In q ps ->
     (getDistance pos (Player.position (snd q)) <= Enemy.detectionRadius)%R ->
     exists v, snd r = Some v /\ (v <= getDistance pos (Player.position (snd q)))%R) /\
  (r = (c, m) \/
   exists id p,
     In (id, p) ps /\ r = (Some id, Some (getDistance pos (Player.position p))) /\
     (getDistance pos (Player.position p) <= Enemy.detectionRadius)%R) /\
  (forall v, m = Some v -> exists v', snd r = Some v' /\ (v' <= v)%R).
Proof.
  revert c m. induction ps as [|[k p] ps IH]; intros c m; cbn [fold_left].
  - cbv zeta. split; [intros q []|]. split; [left; reflexivity|].
    intros v ->. exists v. split; [reflexivity|lra].
  - set (d := getDistance pos (Player.position p)).
    assert (Hstep :
      Enemy.scan_step pos (c, m) (k, p) =
      if below d m && Rleb d Enemy.detectionRadius
      then (Some k, Some d) else (c, m)) by reflexivity.
    rewrite Hstep. clear Hstep.
    destruct (below d m && Rleb d Enemy.detectionRadius) eqn:Etake.
    + apply andb_true_iff in Etake. destruct Etake as [Hbelow Hin].
      assert (Hd : (d <= Enemy.detectionRadius)%R).
      { unfold Rleb in Hin. destruct (Rle_dec d Enemy.detectionRadius);
          [assumption|discriminate]. }
      specialize (IH (Some k) (Some d)). cbv zeta in IH |- *.
      destruct IH as (Hmin & Hwho & Hmono).
      destruct (Hmono d eq_refl) as (v' & Hv' & Hle).
      split; [|split].
      * intros q [<- | Hq] Hrange; [|exact (Hmin q Hq Hrange)].
        exists v'. split; [exact Hv'|exact Hle].
      * right. destruct Hwho as [Hsame | (id & p' & Hin' & Hr & Hrange)].
        -- exists k, p. split; [left; reflexivity|]. split; [exact Hsame|exact Hd].
        -- exists id, p'. split; [right; exact Hin'|]. split; assumption.
      * intros v ->. exists v'. split; [exact Hv'|].
        cbn [below] in Hbelow. unfold Rltb in Hbelow.
        destruct (Rlt_dec d v); [lra|discriminate].
    + specialize (IH c m). cbv zeta in IH |- *.
      destruct IH as (Hmin & Hwho & Hmono).
      split; [|split].
      * intros q [<- | Hq] Hrange; [|exact (Hmin q Hq Hrange)].
        cbn [snd] in Hrange. fold d in Hrange.
        rewrite (Rleb_true _ _ Hrange), andb_true_r in Etake.
        destruct m as [v|]; [|discriminate].
        destruct (Hmono v eq_refl) as (v' & Hv' & Hle).
        exists v'. split; [exact Hv'|].
        cbn [below] in Etake. unfold Rltb in Etake.
        destruct (Rlt_dec d v); [discriminate|]. cbn [snd]. fold d. lra.
      * destruct Hwho as [Hsame | (id & p' & Hin' & Hr & Hrange)].
        -- left. exact Hsame.
        -- right. exists id, p'. split; [right; exact Hin'|]. split; assumption.
      * exact Hmono.
Qed.

(** X10.  Whatever the table, the target [findTarget] leaves is either
    the one the enemy already had or a player of the table that is within
    50 of the enemy and at least as near as every other player of the
    table. *)
Theorem findTarget_target_is_nearest :
  forall (server_players players : list (string * Player.t)) (e : Enemy.t)
         (id : string),
    Enemy.targetPlayerId (Enemy.findTarget server_players players e) = Some id ->
    Enemy.targetPlayerId e = Some id \/
    exists p,
      In (id, p) players /\
      (getDistance (Enemy.position e) (Player.position p) <= 50)%R /\
      forall q, In q players ->
        (getDistance (Enemy.position e) (Player.position p)
         <= getDistance (Enemy.position e) (Player.position (snd q)))%R.
Proof.
  intros g ps e id. unfold Enemy.findTarget.
  destruct (Enemy.has_live_target ps e); [intros H; left; exact H|].
  pose proof (scan_result (Enemy.position e) ps None None) as Hscan.
  cbv zeta in Hscan.
  destruct (fold_left (Enemy.scan_step (Enemy.position e)) ps (None, None))
    as [closest m] eqn:Efold.
  destruct (truthy_str closest); [|intros H; left; exact H].
  unfold Enemy.executeNextAction.
  match goal with
  | |- context [Enemy.executeAction ?g ?a ?x] =>
      destruct (executeAction_frame g a x) as (_ & _ & -> & _)
  end.
  cbn [Enemy.targetPlayerId Enemy.with_currentActionIndex Enemy.with_targetPlayerId].
  intros ->. right.
  destruct Hscan as (Hmin & Hwho & _).
  destruct Hwho as [Hsame | (id' & p & Hin & Hr & Hrange)]; [discriminate|].
  injection Hr as <- ->.
  exists p. split; [exact Hin|]. split; [exact Hrange|].
  intros q Hq.
  destruct (Rle_dec (getDistance (Enemy.position e) (Player.position (snd q)))
                    Enemy.detectionRadius) as [Hnear|Hfar].
  - destruct (Hmin q Hq Hnear) as (v & Hv & Hle). cbn [snd] in Hv.
    injection Hv as <-. exact Hle.
  - unfold Enemy.detectionRadius in *. lra.
Qed.

Lemma findTarget_target_is_nearest_witness :
  Enemy.targetPlayerId (Enemy.findTarget one_player one_player chaser) = Some "p1" /\
  (Enemy.targetPlayerId chaser = Some "p1" \/
   exists p,
     In ("p1", p) one_player /\
     (getDistance (Enemy.position chaser) (Player.position p) <= 50)%R /\
     forall q, In q one_player ->
       (getDistance (Enemy.position chaser) (Player.position p)
        <= getDistance (Enemy.position chaser) (Player.position (snd q)))%R).
Proof.
  assert (H : Enemy.targetPlayerId (Enemy.findTarget one_player one_player chaser)
              = Some "p1").
  { unfold Enemy.findTarget.
    rewrite (has_live_target_true one_player chaser "p1" fresh_player);
      try reflexivity. discriminate. }
  split; [exact H|].
  exact (findTarget_target_is_nearest one_player one_player chaser "p1" H).
Defined.

(** X11.  When the player an alive enemy targets has left the table and
    no player is within 50, one enemy step of the tick ([findTarget],
    [performAction], [move]) leaves the enemy without target, idle and
    with zero velocity, at its old position clamped to the field: it
    stops within that tick. *)
Theorem updateEnemy_stops_when_target_left :
  forall (players : list (string * Player.t)) (deltaTime : R) (e : Enemy.t)
         (tid : string),
    Enemy.alive e = true ->
    Enemy.targetPlayerId e = Some tid ->
    tid <> "" ->
    lookup tid players = None ->
    (forall q, In q players ->
       (50 < getDistance (Enemy.position e) (Player.position (snd q)))%R) ->
    (0 <= Enemy.currentActionIndex e < 5)%Z ->
    Enemy.targetPlayerId (Server.updateEnemy players deltaTime e) = None /\
    Enemy.action (Server.updateEnemy players deltaTime e) = idle /\
    Enemy.velocity (Server.updateEnemy players deltaTime e) = Vec2.zero /\
    Enemy.position (Server.updateEnemy players deltaTime e) =
      Vec2.mk (Enemy.clamp 800 (Vec2.x (Enemy.position e)))
              (Enemy.clamp 600 (Vec2.y (Enemy.position e))).
Proof.
  intros ps dt e tid Halive Htid Hne Hgone Hfar Hi.
  unfold Server.updateEnemy. rewrite Halive.
  rewrite (findTarget_none_in_range ps ps e Hfar).
  rewrite (performAction_lost ps e tid Htid Hne (or_introl Hgone)).
  set (e1 := Enemy.with_velocity Vec2.zero
               (Enemy.with_action idle (Enemy.with_targetPlayerId None e))).
  assert (Ha1 : Enemy.alive e1 = true) by exact Halive.
  assert (Hn1 : Enemy.targetPlayerId e1 = None) by reflexivity.
  assert (Hi1 : (0 <= Enemy.currentActionIndex e1 < 5)%Z) by exact Hi.
  destruct (move_no_target ps dt e1 Ha1 Hn1) as (_ & Hn & Hrun & Hexp).
  split; [exact Hn|].
  assert (Hstill :
    Enemy.action (Enemy.move ps dt e1) = idle /\
    Enemy.velocity (Enemy.move ps dt e1) = Vec2.zero).
  { destruct (Rle_dec (Enemy.actionTimer e1 - dt) 0) as [Ht|Ht].
    - destruct (Hexp Ht) as (_ & Hidle & Hjump).
      destruct (next_index_range _ Hi1) as [_ Hrange].
      destruct (cycle_at_range _ Hrange) as [Hc | Hc].
      + destruct (Hidle Hc) as (Ha & Hv & _). split; assumption.
      + destruct (Hjump Hc) as (Ha & Hv & _). rewrite Ha, Hv. split; reflexivity.
    - destruct Hrun as (_ & Ha & Hv & _); [lra|]. rewrite Ha, Hv. split; reflexivity. }
  destruct Hstill as [Ha Hv].
  split; [exact Ha|]. split; [exact Hv|].
  rewrite move_position by exact Ha1.
  cbv [advanced e1 Enemy.with_velocity Enemy.with_action Enemy.with_targetPlayerId
       Enemy.with_position Enemy.with_actionTimer Enemy.position Enemy.velocity
       Vec2.x Vec2.y Vec2.zero].
  destruct e as [eid [ex ey] hp al vel dir act tg lm idx tm].
  f_equal; f_equal; lra.
Qed.

Lemma updateEnemy_stops_when_target_left_witness :
  Enemy.alive chaser = true /\
  Enemy.targetPlayerId (Server.updateEnemy [] 50 chaser) = None /\
  Enemy.action (Server.updateEnemy [] 50 chaser) = idle /\
  Enemy.velocity (Server.updateEnemy [] 50 chaser) = Vec2.zero.
Proof.
  split; [reflexivity|].
  destruct (updateEnemy_stops_when_target_left [] 50 chaser "p1")
    as (Ht & Ha & Hv & _); try reflexivity.
  - discriminate.
  - intros q [].
  - cbv [chaser Enemy.with_targetPlayerId Enemy.new Enemy.currentActionIndex]. lia.
  - exact (conj Ht (conj Ha Hv)).
Defined.

(** ** The server tick *)

(** The scan of [handleAttack], read from its result. *)
Lemma attack_result (pos : Vec2.t) (es : list (string * Enemy.t))
    (c : option (string * Enemy.t)) (m : option R) :
  let r := fold_left (Server.attack_step pos) es (c, m) in
  (forall q, In q es ->
     Enemy.alive (snd q) = true ->
     (getDistance pos (Enemy.position (snd q)) < Server.attackRadius)%R ->
     exists v, snd r = Some v /\ (v <= getDistance pos (Enemy.position (snd q)))%R) /\
  (r = (c, m) \/
   exists q,
     In q es /\ r = (Some q, Some (getDistance pos (Enemy.position (snd q)))) /\
     Enemy.alive (snd q) = true /\
     (getDistance pos (Enemy.position (snd q)) < Server.attackRadius)%R) /\
  (forall v, m = Some v -> exists v', snd r = Some v' /\ (v' <= v)%R).
Proof.
  revert c m. induction es as [|q0 es IH]; intros c m; cbn [fold_left].
  - cbv zeta. split; [intros q []|]. split; [left; reflexivity|].
    intros v ->. exists v. split; [reflexivity|lra].
  - set (d := getDistance pos (Enemy.position (snd q0))).
    assert (Hstep :
      Server.attack_step pos (c, m) q0 =
      if Enemy.alive (snd q0) && (below d m && Rltb d Server.attackRadius)
      then (Some q0, Some d) else (c, m)).
    { unfold Server.attack_step. fold d.
      destruct (Enemy.alive (snd q0)); cbn [negb andb]; [|reflexivity].
      destruct (below d m && Rltb d Server.attackRadius); reflexivity. }
    rewrite Hstep. clear Hstep.
    destruct (Enemy.alive (snd q0) && (below d m && Rltb d Server.attackRadius))
      eqn:Etake.
    + apply andb_true_iff in Etake. destruct Etake as [Halive Etake].
      apply andb_true_iff in Etake. destruct Etake as [Hbelow Hin].
      assert (Hd : (d < Server.attackRadius)%R).
      { unfold Rltb in Hin. destruct (Rlt_dec d Server.attackRadius);
          [assumption|discriminate]. }
      specialize (IH (Some q0) (Some d)). cbv zeta in IH |- *.
      destruct IH as (Hmin & Hwho & Hmono).
      destruct (Hmono d eq_refl) as (v' & Hv' & Hle).
      split; [|split].
      * intros q [<- | Hq] Hal Hrange; [|exact (Hmin q Hq Hal Hrange)].
        exists v'. split; [exact Hv'|exact Hle].
      * right. destruct Hwho as [Hsame | (q & Hin' & Hr & Hal & Hrange)].
        -- exists q0. split; [left; reflexivity|]. repeat split; assumption.
        -- exists q. split; [right; exact Hin'|]. repeat split; assumption.
      * intros v ->. exists v'. split; [exact Hv'|].
        cbn [below] in Hbelow. unfold Rltb in Hbelow.
        destruct (Rlt_dec d v); [lra|discriminate].
    + specialize (IH c m). cbv zeta in IH |- *.
      destruct IH as (Hmin & Hwho & Hmono).
      split; [|split].
      * intros q [<- | Hq] Hal Hrange; [|exact (Hmin q Hq Hal Hrange)].
        fold d in Hrange.
        rewrite Hal, (Rltb_true _ _ Hrange), andb_true_r in Etake.
        cbn [andb] in Etake.
        destruct m as [v|]; [|discriminate].
        destruct (Hmono v eq_refl) as (v' & Hv' & Hle).
        exists v'. split; [exact Hv'|].
        cbn [below] in Etake. unfold Rltb in Etake.
        destruct (Rlt_dec d v); [discriminate|]. fold d. lra.
      * destruct Hwho as [Hsame | (q & Hin' & Hr & Hal & Hrange)].
        -- left. exact Hsame.
        -- right. exists q. split; [right; exact Hin'|]. repeat split; assumption.
      * exact Hmono.
Qed.

(** X12.  The enemy [handleAttack] picks is in the table, alive, closer
    than 50 to the attacker and at least as near as every other alive
    enemy; it picks none exactly when no alive enemy is closer than 50. *)
Theorem closestEnemy_spec :
  forall (pos : Vec2.t) (es : list (string * Enemy.t)),
    (forall q, Server.closestEnemy pos es = Some q ->
       In q es /\
       Enemy.alive (snd q) = true /\
       (getDistance pos (Enemy.position (snd q)) < 50)%R /\
       forall q', In q' es -> Enemy.alive (snd q') = true ->
         (getDistance pos (Enemy.position (snd q))
          <= getDistance pos (Enemy.position (snd q')))%R) /\
    (Server.closestEnemy pos es = None <->
     forall q, In q es -> Enemy.alive (snd q) = true ->
       (50 <= getDistance pos (Enemy.position (snd q)))%R).
Proof.
  intros pos es.
  pose proof (attack_result pos es None None) as Hscan. cbv zeta in Hscan.
  unfold Server.closestEnemy.
  destruct (fold_left (Server.attack_step pos) es (None, None)) as [c m] eqn:Efold.
  destruct Hscan as (Hmin & Hwho & _). cbn [fst snd] in *.
  split.
  - intros q ->.
    destruct Hwho as [Hsame | (q' & Hin & Hr & Hal & Hrange)]; [discriminate|].
    injection Hr as <- ->.
    split; [exact Hin|]. split; [exact Hal|]. split; [exact Hrange|].
    intros q' Hq' Hal'.
    destruct (Rlt_dec (getDistance pos (Enemy.position (snd q'))) Server.attackRadius)
      as [Hnear|Hfar].
    + destruct (Hmin q' Hq' Hal' Hnear) as (v & Hv & Hle).
      injection Hv as <-. exact Hle.
    + unfold Server.attackRadius in *. lra.
  - split.
    + intros ->. intros q Hq Hal.
      destruct (Rlt_dec (getDistance pos (Enemy.position (snd q))) Server.attackRadius)
        as [Hnear|Hfar]; [|unfold Server.attackRadius in Hfar; lra].
      destruct (Hmin q Hq Hal Hnear) as (v & Hv & _).
      destruct Hwho as [Hsame | (q' & _ & Hr & _)]; congruence.
    + intros Hfar.
      destruct Hwho as [Hsame | (q' & Hin & Hr & Hal & Hrange)]; [congruence|].
      specialize (Hfar q' Hin Hal). unfold Server.attackRadius in Hrange. lra.
Qed.

Lemma closestEnemy_in (pos : Vec2.t) (es : list (string * Enemy.t))
    (q : string * Enemy.t) :
  Server.closestEnemy pos es = Some q -> In q es.
Proof.
  pose proof (attack_result pos es None None) as Hscan. cbv zeta in Hscan.
  unfold Server.closestEnemy.
  destruct (fold_left (Server.attack_step pos) es (None, None)) as [c m].
  destruct Hscan as (_ & Hwho & _). cbn [fst]. intros ->.
  destruct Hwho as [Hsame | (q' & Hin & Hr & _)]; [discriminate|].
  injection Hr as <- _. exact Hin.
Qed.

Lemma store_keys {A : Type} (key : string) (v : A) (table : list (string * A)) :
  List.map fst (store key v table) = List.map fst table.
Proof.
  induction table as [|[k w] table IH]; cbn; [reflexivity|].
  destruct (k =? key); cbn; [reflexivity|]. f_equal. exact IH.
Qed.

Lemma lookup_store_other {A : Type} (key key' : string) (v : A)
    (table : list (string * A)) :
  key' <> key -> lookup key' (store key v table) = lookup key' table.
Proof.
  intros Hne. induction table as [|[k w] table IH]; cbn; [reflexivity|].
  destruct (String.eqb_spec k key) as [->|Hk]; cbn.
  - destruct (String.eqb_spec key key'); [congruence|reflexivity].
  - destruct (k =? key'); [reflexivity|exact IH].
Qed.

Lemma lookup_some_key {A : Type} (key : string) (v : A) (table : list (string * A)) :
  lookup key table = Some v -> In key (List.map fst table).
Proof.
  induction table as [|[k w] table IH]; cbn; [discriminate|].
  destruct (String.eqb_spec k key) as [->|Hk].
  - intros _. left. reflexivity.
  - intros H. right. exact (IH H).
Qed.

(** The enemy table after [handleAttack], by cases on its scan. *)
Lemma handleAttack_enemies (playerId : string) (w : Server.World) :
  enemies_wf (Server.enemies w) ->
  Server.enemies (Server.handleAttack playerId w) = Server.enemies w \/
  exists before k e after,
    Server.enemies w = (before ++ (k, e) :: after)%list /\
    (Server.enemies (Server.handleAttack playerId w) = (before ++ after)%list \/
     Server.enemies (Server.handleAttack playerId w)
       = (before ++ (k, snd (Enemy.takeDamage 10 e)) :: after)%list).
Proof.
  intros [Hnodup Hid]. unfold Server.handleAttack.
  destruct (lookup playerId (Server.players w)) as [player|]; [|left; reflexivity].
  destruct (Server.closestEnemy (Player.position player) (Server.enemies w))
    as [[k e]|] eqn:Eclosest; [|left; reflexivity].
  right. apply closestEnemy_in in Eclosest.
  destruct (in_split _ _ Eclosest) as (before & after & Hes).
  exists before, k, e, after. split; [exact Hes|].
  rewrite Hes in Hnodup. rewrite map_app in Hnodup. cbn [List.map fst] in Hnodup.
  destruct (NoDup_middle _ _ _ Hnodup) as [Hkb Hka].
  assert (Hke : Enemy.id e = k) by (apply Hid; exact Eclosest).
  destruct (Z.leb_spec (Enemy.health e - 10) 0) as [Hdead|Hlive].
  - left. rewrite takeDamage_lethal by exact Hdead.
    destruct (Player.gainExp 50 player) as [leveledUp player'].
    cbn [Server.enemies Enemy.id Enemy.with_alive Enemy.with_health].
    rewrite Hes, Hke, store_middle, delete_middle by assumption. reflexivity.
  - right. rewrite takeDamage_survived by exact Hlive.
    cbn [Server.enemies snd]. rewrite Hes, store_middle by assumption. reflexivity.
Qed.

Lemma handleAttack_players (playerId : string) (w : Server.World) :
  List.map fst (Server.players (Server.handleAttack playerId w))
    = List.map fst (Server.players w) /\
  (forall k, k <> playerId ->
     lookup k (Server.players (Server.handleAttack playerId w))
     = lookup k (Server.players w)) /\
  (lookup playerId (Server.players w) = None -> Server.handleAttack playerId w = w).
Proof.
  unfold Server.handleAttack.
  destruct (lookup playerId (Server.players w)) as [player|];
    [|repeat split; reflexivity].
  destruct (Server.closestEnemy _ _) as [[k e]|]; [|repeat split; discriminate].
  destruct (Enemy.takeDamage 10 e) as [[|] e'].
  - destruct (Player.gainExp 50 player) as [leveledUp player'].
    cbn [Server.players]. split; [apply store_keys|].
    split; [intros k' Hk'; apply lookup_store_other; exact Hk'|discriminate].
  - repeat split; discriminate.
Qed.

Lemma enemies_wf_remove (before after : list (string * Enemy.t)) (k : string)
    (e : Enemy.t) :
  enemies_wf (before ++ (k, e) :: after) -> enemies_wf (before ++ after).
Proof.
  intros [Hnodup Hid]. split.
  - rewrite map_app in *. cbn [List.map fst] in Hnodup.
    exact (NoDup_remove_1 _ _ _ Hnodup).
  - intros k' e' Hin. apply Hid. apply in_app_or in Hin.
    apply in_or_app. destruct Hin; [left|right; right]; assumption.
Qed.

Lemma enemies_wf_replace (before after : list (string * Enemy.t)) (k : string)
    (e e' : Enemy.t) :
  Enemy.id e' = Enemy.id e ->
  enemies_wf (before ++ (k, e) :: after) -> enemies_wf (before ++ (k, e') :: after).
Proof.
  intros Hsame [Hnodup Hid]. split.
  - rewrite map_app in *. exact Hnodup.
  - intros k' e'' Hin. apply in_app_or in Hin.
    destruct Hin as [Hin | [Heq | Hin]].
    + apply Hid, in_or_app. left. exact Hin.
    + injection Heq as <- <-. rewrite Hsame. apply Hid, in_or_app.
      right. left. reflexivity.
    + apply Hid, in_or_app. right. right. exact Hin.
Qed.

(** X13.  [handleAttack] keeps the enemy table well formed (one entry
    per key, each enemy under its own id), adds no enemy and removes at
    most one; it leaves the keys of the player table and every player
    other than the attacker as they were, and does nothing at all for an
    id that is not in the player table. *)
Theorem handleAttack_preserves_tables :
  forall (playerId : string) (w : Server.World),
    enemies_wf (Server.enemies w) ->
    enemies_wf (Server.enemies (Server.handleAttack playerId w)) /\
    (forall k,
        In k (List.map fst (Server.enemies (Server.handleAttack playerId w))) ->
        In k (List.map fst (Server.enemies w))) /\
    (List.length (Server.enemies w)
     <= S (List.length (Server.enemies (Server.handleAttack playerId w))))%nat /\
    List.map fst (Server.players (Server.handleAttack playerId w))
      = List.map fst (Server.players w) /\
    (forall k, k <> playerId ->
       lookup k (Server.players (Server.handleAttack playerId w))
       = lookup k (Server.players w)) /\
    (lookup playerId (Server.players w) = None -> Server.handleAttack playerId w = w).
Proof.
  intros playerId w Hwf.
  destruct (handleAttack_players playerId w) as (Hkeys & Hothers & Hunknown).
  assert (Henemies :
    enemies_wf (Server.enemies (Server.handleAttack playerId w)) /\
    (forall k,
        In k (List.map fst (Server.enemies (Server.handleAttack playerId w))) ->
        In k (List.map fst (Server.enemies w))) /\
    (List.length (Server.enemies w)
     <= S (List.length (Server.enemies (Server.handleAttack playerId w))))%nat).
  { destruct (handleAttack_enemies playerId w Hwf)
      as [-> | (before & k & e & after & Hes & [-> | ->])].
    - split; [exact Hwf|]. split; [tauto|lia].
    - rewrite Hes in *. split; [exact (enemies_wf_remove _ _ _ _ Hwf)|]. split.
      + intros k'. rewrite !map_app, !in_app_iff. cbn. tauto.
      + rewrite !length_app. cbn. lia.
    - rewrite Hes in *. split.
      + apply (enemies_wf_replace _ _ _ e); [|exact Hwf].
        apply (takeDamage_fields 10 e).
      + split; [intros k'; rewrite !map_app; cbn; tauto|].
        rewrite !length_app. cbn. lia. }
  tauto.
Qed.

Lemma handleAttack_preserves_tables_witness :
  enemies_wf (Server.enemies arena) /\
  enemies_wf (Server.enemies (Server.handleAttack "p1" arena)).
Proof.
  split; [exact arena_wf|].
  apply (handleAttack_preserves_tables "p1" arena arena_wf).
Defined.

Lemma updatePlayer_players (mapLoader : MapLoader.t) (w : Server.World)
    (playerId : string) :
  List.map fst (Server.players (Server.updatePlayer mapLoader w playerId))
    = List.map fst (Server.players w) /\
  (forall k, k <> playerId ->
     lookup k (Server.players (Server.updatePlayer mapLoader w playerId))
     = lookup k (Server.players w)) /\
  (forall p,
     lookup playerId (Server.players (Server.updatePlayer mapLoader w playerId))
       = Some p ->
     Player.currentInput p = PlayerInput.empty).
Proof.
  unfold Server.updatePlayer.
  destruct (lookup playerId (Server.players w)) as [player|] eqn:Hlook.
  - set (w1 := if Player.isAttacking player
               then Server.handleAttack playerId w else w).
    assert (H1 :
      List.map fst (Server.players w1) = List.map fst (Server.players w) /\
      (forall k, k <> playerId ->
         lookup k (Server.players w1) = lookup k (Server.players w))).
    { unfold w1. destruct (Player.isAttacking player); [|split; reflexivity].
      destruct (handleAttack_players playerId w) as (Hk & Ho & _). split; assumption. }
    destruct H1 as [Hkeys Hothers].
    destruct (lookup playerId (Server.players w1)) as [player1|] eqn:Hlook1.
    + cbn [Server.players]. split; [rewrite store_keys; exact Hkeys|]. split.
      * intros k Hk. rewrite lookup_store_other by exact Hk. apply Hothers, Hk.
      * intros p. rewrite (lookup_store playerId player1 _ _ Hlook1).
        intros [= <-]. apply processInput_clears.
    + split; [exact Hkeys|]. split; [exact Hothers|].
      intros p. rewrite Hlook1. discriminate.
  - split; [reflexivity|]. split; [reflexivity|]. intros p. rewrite Hlook. discriminate.
Qed.

Lemma updatePlayers_fold (mapLoader : MapLoader.t) (ks : list string)
    (w : Server.World) :
  List.map fst (Server.players (fold_left (Server.updatePlayer mapLoader) ks w))
    = List.map fst (Server.players w) /\
  (forall k, ~ In k ks ->
     lookup k (Server.players (fold_left (Server.updatePlayer mapLoader) ks w))
     = lookup k (Server.players w)) /\
  (forall k p, In k ks ->
     lookup k (Server.players (fold_left (Server.updatePlayer mapLoader) ks w))
       = Some p ->
     Player.currentInput p = PlayerInput.empty).
Proof.
  revert w. induction ks as [|k0 ks IH]; intros w; cbn [fold_left].
  - split; [reflexivity|]. split; [reflexivity|]. intros k p [].
  - destruct (IH (Server.updatePlayer mapLoader w k0)) as (Hkeys & Hout & Hin).
    destruct (updatePlayer_players mapLoader w k0) as (Hkeys0 & Hothers0 & Hdone0).
    split; [rewrite Hkeys; exact Hkeys0|]. split.
    + intros k Hk. rewrite Hout by (intros H; apply Hk; right; exact H).
      apply Hothers0. intros ->. apply Hk. left. reflexivity.
    + intros k p Hk Hlook.
      destruct (in_dec string_dec k ks) as [Hks|Hks]; [exact (Hin k p Hks Hlook)|].
      destruct Hk as [<- | Hk]; [|contradiction].
      rewrite Hout in Hlook by exact Hks. exact (Hdone0 p Hlook).
Qed.

(** X14.  A tick keeps the keys of the player table and leaves every
    player with an empty input buffer, so no player is attacking after
    it: each buffered input is resolved by exactly one tick. *)
Theorem updateGameState_clears_inputs :
  forall (mapLoader : MapLoader.t) (deltaTime : R) (w : Server.World),
    List.map fst (Server.players (Server.updateGameState mapLoader deltaTime w))
      = List.map fst (Server.players w) /\
    (forall k p,
        lookup k (Server.players (Server.updateGameState mapLoader deltaTime w))
          = Some p ->
        Player.currentInput p = PlayerInput.empty /\
        Player.isAttacking p = false).
Proof.
  intros mapLoader dt w. unfold Server.updateGameState. cbn [Server.players].
  destruct (updatePlayers_fold mapLoader (List.map fst (Server.players w)) w)
    as (Hkeys & _ & Hin).
  split; [exact Hkeys|].
  intros k p Hlook.
  assert (Hempty : Player.currentInput p = PlayerInput.empty).
  { apply (Hin k p); [|exact Hlook].
    rewrite <- Hkeys. exact (lookup_some_key k p _ Hlook). }
  split; [exact Hempty|]. unfold Player.isAttacking. rewrite Hempty. reflexivity.
Qed.

Lemma move_frame (g : list (string * Player.t)) (deltaTime : R) (e : Enemy.t) :
  Enemy.id (Enemy.move g deltaTime e) = Enemy.id e /\
  Enemy.alive (Enemy.move g deltaTime e) = Enemy.alive e.
Proof.
  destruct (Enemy.alive e) eqn:Halive.
  - destruct (Rle_dec (Enemy.actionTimer e - deltaTime) 0) as [Ht|Ht].
    + rewrite move_expired by assumption.
      match goal with
      | |- context [Enemy.executeAction ?g ?a ?x] =>
          destruct (executeAction_frame g a x) as (_ & -> & _ & _ & _ & ->)
      end.
      split; [reflexivity|exact Halive].
    + rewrite move_running by (try assumption; lra). split; [reflexivity|exact Halive].
  - unfold Enemy.move. rewrite Halive. split; [reflexivity|exact Halive].
Qed.

Lemma updateEnemy_frame (ps : list (string * Player.t)) (deltaTime : R)
    (e : Enemy.t) :
  Enemy.id (Server.updateEnemy ps deltaTime e) = Enemy.id e /\
  Enemy.alive (Server.updateEnemy ps deltaTime e) = Enemy.alive e.
Proof.
  unfold Server.updateEnemy. destruct (Enemy.alive e) eqn:Halive.
  - destruct (move_frame ps deltaTime
                (Enemy.performAction ps (Enemy.findTarget ps ps e))) as [-> ->].
    destruct (performAction_frame ps (Enemy.findTarget ps ps e))
      as (_ & -> & _ & ->).
    destruct (findTarget_frame ps ps e) as (_ & -> & _ & ->).
    split; [reflexivity|exact Halive].
  - split; [reflexivity|exact Halive].
Qed.

Lemma updateEnemy_in_field (ps : list (string * Player.t)) (deltaTime : R)
    (e : Enemy.t) :
  Enemy.alive e = true ->
  (0 <= Vec2.x (Enemy.position (Server.updateEnemy ps deltaTime e)) <= 800)%R /\
  (0 <= Vec2.y (Enemy.position (Server.updateEnemy ps deltaTime e)) <= 600)%R.
Proof.
  intros Halive. unfold Server.updateEnemy. rewrite Halive.
  rewrite move_position.
  - cbn [advanced Enemy.position Enemy.with_actionTimer Enemy.with_position
         Vec2.x Vec2.y].
    split; apply clamp_bounds; lra.
  - rewrite (proj1 (proj2 (performAction_frame _ _))).
    rewrite (proj1 (proj2 (findTarget_frame _ _ _))). exact Halive.
Qed.

Lemma updatePlayers_enemies (mapLoader : MapLoader.t) (ks : list string)
    (w : Server.World) :
  enemies_wf (Server.enemies w) ->
  enemies_wf (Server.enemies (fold_left (Server.updatePlayer mapLoader) ks w)) /\
  (forall k,
     In k (List.map fst
             (Server.enemies (fold_left (Server.updatePlayer mapLoader) ks w))) ->
     In k (List.map fst (Server.enemies w))).
Proof.
  revert w. induction ks as [|k0 ks IH]; intros w Hwf; cbn [fold_left].
  - split; [exact Hwf|tauto].
  - assert (Hstep :
      enemies_wf (Server.enemies (Server.updatePlayer mapLoader w k0)) /\
      (forall k,
         In k (List.map fst (Server.enemies (Server.updatePlayer mapLoader w k0))) ->
         In k (List.map fst (Server.enemies w)))).
    { destruct (lookup k0 (Server.players w)) as [player|] eqn:Hlook.
      - rewrite (updatePlayer_enemies mapLoader w k0 player Hlook).
        destruct (Player.isAttacking player); [|split; [exact Hwf|tauto]].
        destruct (handleAttack_enemies k0 w Hwf)
          as [-> | (before & k & e & after & Hes & [-> | ->])].
        + split; [exact Hwf|tauto].
        + rewrite Hes in *. split; [exact (enemies_wf_remove _ _ _ _ Hwf)|].
          intros k'. rewrite !map_app, !in_app_iff. cbn. tauto.
        + rewrite Hes in *. split.
          * apply (enemies_wf_replace _ _ _ e); [|exact Hwf].
            apply (takeDamage_fields 10 e).
          * intros k'. rewrite !map_app. cbn. tauto.
      - unfold Server.updatePlayer. rewrite Hlook. split; [exact Hwf|tauto]. }
    destruct Hstep as [Hwf1 Hsub1].
    destruct (IH _ Hwf1) as [Hwf' Hsub'].
    split; [exact Hwf'|]. intros k Hk. apply Hsub1, Hsub', Hk.
Qed.

(** X15.  A tick keeps the enemy table well formed and adds no enemy to
    it, and every enemy that is alive after the tick lies in the field
    [0, 800] x [0, 600], wherever it was before. *)
Theorem updateGameState_enemies :
  forall (mapLoader : MapLoader.t) (deltaTime : R) (w : Server.World),
    enemies_wf (Server.enemies w) ->
    enemies_wf (Server.enemies (Server.updateGameState mapLoader deltaTime w)) /\
    (forall k,
        In k (List.map fst
                (Server.enemies (Server.updateGameState mapLoader deltaTime w))) ->
        In k (List.map fst (Server.enemies w))) /\
    (forall k e,
        In (k, e) (Server.enemies (Server.updateGameState mapLoader deltaTime w)) ->
        Enemy.alive e = true ->
        (0 <= Vec2.x (Enemy.position e) <= 800)%R /\
        (0 <= Vec2.y (Enemy.position e) <= 600)%R).
Proof.
  intros mapLoader dt w Hwf. unfold Server.updateGameState. cbn [Server.enemies].
  destruct (updatePlayers_enemies mapLoader (List.map fst (Server.players w)) w Hwf)
    as [[Hnodup Hid] Hsub].
  set (w1 := fold_left (Server.updatePlayer mapLoader)
               (List.map fst (Server.players w)) w) in *.
  assert (Hkeys :
    List.map fst
      (List.map (fun kv => (fst kv, Server.updateEnemy (Server.players w1) dt (snd kv)))
         (Server.enemies w1))
    = List.map fst (Server.enemies w1)).
  { rewrite map_map. apply map_ext. reflexivity. }
  split; [split|split].
  - rewrite Hkeys. exact Hnodup.
  - intros k e Hin. apply in_map_iff in Hin.
    destruct Hin as ([k0 e0] & Heq & Hin0). cbn [fst snd] in Heq.
    injection Heq as <- <-.
    rewrite (proj1 (updateEnemy_frame _ _ _)). exact (Hid k0 e0 Hin0).
  - rewrite Hkeys. exact Hsub.
  - intros k e Hin Halive. apply in_map_iff in Hin.
    destruct Hin as ([k0 e0] & Heq & Hin0). cbn [fst snd] in Heq.
    injection Heq as <- <-.
    apply updateEnemy_in_field.
    rewrite <- (proj2 (updateEnemy_frame (Server.players w1) dt e0)). exact Halive.
Qed.

Lemma updateGameState_enemies_witness :
  enemies_wf (Server.enemies arena) /\
  enemies_wf (Server.enemies (Server.updateGameState open_map 50 arena)).
Proof.
  split; [exact arena_wf|].
  apply (updateGameState_enemies open_map 50 arena arena_wf).
Defined.

(** ** Snapshots, spawning and socket handlers *)

Lemma assign_fresh {A : Type} (key : string) (v : A) (table : list (string * A)) :
  ~ In key (List.map fst table) -> assign key v table = (table ++ [(key, v)])%list.
Proof.
  induction table as [|[k w] table IH]; intros Hnot; cbn; [reflexivity|].
  destruct (String.eqb_spec k key) as [->|Hk].
  - exfalso. apply Hnot. left. reflexivity.
  - f_equal. apply IH. intros Hin. apply Hnot. right. exact Hin.
Qed.

Lemma NoDup_app_head (bs : list string) (k : string) (rest : list string) :
  NoDup (bs ++ k :: rest) -> ~ In k bs /\ NoDup ((bs ++ [k]) ++ rest).
Proof.
  intros H. split; [exact (proj1 (NoDup_middle _ _ _ H))|].
  rewrite <- app_assoc. exact H.
Qed.

Lemma snapshot_players (t : list (string * Player.t))
    (acc : list (string * PlayerData.t)) :
  NoDup (List.map fst acc ++ List.map fst t) ->
  fold_left (fun acc kv => assign (fst kv) (playerData (snd kv)) acc) t acc
  = (acc ++ List.map (fun kv => (fst kv, playerData (snd kv))) t)%list.
Proof.
  revert acc. induction t as [|[k p] t IH]; intros acc Hnodup; cbn [fold_left List.map].
  - rewrite app_nil_r. reflexivity.
  - cbn [List.map fst] in Hnodup.
    destruct (NoDup_app_head _ _ _ Hnodup) as [Hfresh Hrest].
    cbn [fst snd]. rewrite assign_fresh by exact Hfresh.
    rewrite IH.
    + rewrite <- app_assoc. reflexivity.
    + rewrite map_app. exact Hrest.
Qed.

Lemma snapshot_enemies (t : list (string * Enemy.t))
    (acc : list (string * EnemyData.t)) :
  NoDup (List.map fst acc ++ List.map fst t) ->
  (forall k e, In (k, e) t -> Enemy.id e = k) ->
  fold_left
    (fun acc kv =>
       if Enemy.alive (snd kv)
       then assign (Enemy.id (snd kv)) (enemyData (snd kv)) acc
       else acc) t acc
  = (acc ++ List.map (fun kv => (fst kv, enemyData (snd kv)))
              (filter (fun kv => Enemy.alive (snd kv)) t))%list.
Proof.
  revert acc. induction t as [|[k e] t IH]; intros acc Hnodup Hid;
    cbn [fold_left List.map filter].
  - rewrite app_nil_r. reflexivity.
  - cbn [List.map fst] in Hnodup. cbn [fst snd].
    assert (Hke : Enemy.id e = k) by (apply Hid; left; reflexivity).
    assert (Hid' : forall k' e', In (k', e') t -> Enemy.id e' = k').
    { intros k' e' Hin. apply Hid. right. exact Hin. }
    destruct (Enemy.alive e).
    + destruct (NoDup_app_head _ _ _ Hnodup) as [Hfresh Hrest].
      rewrite Hke, assign_fresh by exact Hfresh.
      rewrite IH; [|rewrite map_app; exact Hrest|exact Hid'].
      cbn [List.map fst snd]. rewrite <- app_assoc. reflexivity.
    + apply IH; [exact (NoDup_remove_1 _ _ _ Hnodup)|exact Hid'].
Qed.

Lemma getGameState_eq (w : Server.World) :
  NoDup (List.map fst (Server.players w)) ->
  enemies_wf (Server.enemies w) ->
  getGameState w =
  GameState.mk
    (List.map (fun kv => (fst kv, playerData (snd kv))) (Server.players w))
    (List.map (fun kv => (fst kv, enemyData (snd kv)))
       (filter (fun kv => Enemy.alive (snd kv)) (Server.enemies w))).
Proof.
  intros Hp [He Hid]. unfold getGameState.
  rewrite snapshot_players by exact Hp.
  rewrite snapshot_enemies by assumption. reflexivity.
Qed.

Lemma snapshot_enemy_keys (es : list (string * Enemy.t)) (k : string) :
  In k (List.map fst
          (List.map (fun kv => (fst kv, enemyData (snd kv)))
             (filter (fun kv => Enemy.alive (snd kv)) es))) ->
  exists e, In (k, e) es /\ Enemy.alive e = true.
Proof.
  rewrite map_map. cbn [fst]. intros Hin. apply in_map_iff in Hin.
  destruct Hin as ([k0 e0] & <- & Hin). apply filter_In in Hin.
  exists e0. exact Hin.
Qed.

Lemma NoDup_keys_unique {A : Type} (t : list (string * A)) (k : string) (v v' : A) :
  NoDup (List.map fst t) -> In (k, v) t -> In (k, v') t -> v = v'.
Proof.
  induction t as [|[k0 v0] t IH]; intros Hnodup Hin Hin'; [destruct Hin|].
  cbn [List.map fst] in Hnodup. inversion Hnodup as [|? ? Hfresh Hrest]; subst.
  destruct Hin as [Heq | Hin], Hin' as [Heq' | Hin'].
  - congruence.
  - injection Heq as -> ->. exfalso. apply Hfresh.
    apply in_map_iff. exists (k, v'). split; [reflexivity|exact Hin'].
  - injection Heq' as -> ->. exfalso. apply Hfresh.
    apply in_map_iff. exists (k, v). split; [reflexivity|exact Hin].
  - exact (IH Hrest Hin Hin').
Qed.

(** X16.  For a world with one entry per player key and a well-formed
    enemy table, the snapshot lists every player under its key, in table
    order, and exactly the alive enemies, each under its id with its
    position, health, direction and action; an enemy of the table that is
    not alive has no entry. *)
Theorem getGameState_spec :
  forall (w : Server.World),
    NoDup (List.map fst (Server.players w)) ->
    enemies_wf (Server.enemies w) ->
    GameState.players (getGameState w)
      = List.map (fun kv => (fst kv, playerData (snd kv))) (Server.players w) /\
    GameState.enemies (getGameState w)
      = List.map (fun kv => (fst kv, enemyData (snd kv)))
          (filter (fun kv => Enemy.alive (snd kv)) (Server.enemies w)) /\
    (forall k e,
        In (k, e) (Server.enemies w) ->
        Enemy.alive e = false ->
        lookup k (GameState.enemies (getGameState w)) = None) /\
    (forall k e,
        In (k, e) (Server.enemies w) ->
        Enemy.alive e = true ->
        In (k, enemyData e) (GameState.enemies (getGameState w))).
Proof.
  intros w Hp Hwf. rewrite (getGameState_eq w Hp Hwf).
  cbn [GameState.players GameState.enemies].
  split; [reflexivity|]. split; [reflexivity|]. split.
  - intros k e Hin Hdead. apply lookup_absent. intros Hkey.
    destruct (snapshot_enemy_keys _ _ Hkey) as (e' & Hin' & Halive).
    rewrite (NoDup_keys_unique _ k e e' (proj1 Hwf) Hin Hin') in Hdead. congruence.
  - intros k e Hin Halive. apply in_map_iff. exists (k, e).
    split; [reflexivity|]. apply filter_In. split; [exact Hin|exact Halive].
Qed.

Lemma one_player_keys : NoDup (List.map fst (Server.players arena)).
Proof. cbn. constructor; [intros []|constructor]. Qed.

Lemma getGameState_spec_witness :
  enemies_wf (Server.enemies arena) /\
  GameState.players (getGameState arena)
    = List.map (fun kv => (fst kv, playerData (snd kv))) (Server.players arena).
Proof.
  split; [exact arena_wf|].
  apply (getGameState_spec arena one_player_keys arena_wf).
Defined.

(** X17.  After an attack that kills, the enemy hit has no entry in the
    enemy table nor in the next snapshot, and a later attack cannot pick
    it. *)
Theorem killed_enemy_is_gone :
  forall (playerId : string) (w : Server.World) (player : Player.t)
         (before after : list (string * Enemy.t)) (k : string) (e : Enemy.t),
    lookup playerId (Server.players w) = Some player ->
    NoDup (List.map fst (Server.players w)) ->
    enemies_wf (Server.enemies w) ->
    Server.enemies w = (before ++ (k, e) :: after)%list ->
    Enemy.alive e = true ->
    (getDistance (Player.position player) (Enemy.position e) < 50)%R ->
    (forall q, In q before -> Enemy.alive (snd q) = true ->
       (getDistance (Player.position player) (Enemy.position e)
        < getDistance (Player.position player) (Enemy.position (snd q)))%R) ->
    (forall q, In q after -> Enemy.alive (snd q) = true ->
       (getDistance (Player.position player) (Enemy.position e)
        <= getDistance (Player.position player) (Enemy.position (snd q)))%R) ->
    (Enemy.health e <= 10)%Z ->
    lookup k (Server.enemies (Server.handleAttack playerId w)) = None /\
    lookup k (GameState.enemies (getGameState (Server.handleAttack playerId w)))
      = None /\
    (forall pos q,
        Server.closestEnemy pos (Server.enemies (Server.handleAttack playerId w))
          = Some q ->
        fst q <> k).
Proof.
  intros playerId w player before after k e Hlook Hp Hwf Hes Halive Hin
         Hbefore Hafter Hlethal.
  pose proof (handleAttack_hit playerId w player before after k e
                Hlook Hwf Hes Halive Hin Hbefore Hafter) as Hhit.
  rewrite (proj2 (Z.leb_le (Enemy.health e - 10) 0)) in Hhit by lia.
  assert (Hwf' : enemies_wf (before ++ after)).
  { rewrite Hes in Hwf. exact (enemies_wf_remove _ _ _ _ Hwf). }
  assert (Hgone : ~ In k (List.map fst (before ++ after))).
  { destruct Hwf as [Hnodup _]. rewrite Hes, map_app in Hnodup.
    cbn [List.map fst] in Hnodup.
    destruct (NoDup_middle _ _ _ Hnodup) as [Hkb Hka].
    rewrite map_app. intros H. apply in_app_or in H. tauto. }
  rewrite Hhit.
  split; [cbn [Server.enemies]; exact (lookup_absent k _ Hgone)|]. split.
  - rewrite getGameState_eq.
    + cbn [GameState.enemies Server.enemies]. apply lookup_absent. intros Hkey.
      destruct (snapshot_enemy_keys _ _ Hkey) as (e' & Hin' & _).
      apply Hgone. apply in_map_iff. exists (k, e'). split; [reflexivity|exact Hin'].
    + cbn [Server.players]. rewrite store_keys. exact Hp.
    + exact Hwf'.
  - cbn [Server.enemies]. intros pos q Hq Hk. apply closestEnemy_in in Hq.
    apply Hgone. rewrite <- Hk. apply in_map. exact Hq.
Qed.

Lemma last_stand_wf : enemies_wf (Server.enemies last_stand).
Proof.
  split.
  - cbn. constructor; [intros []|constructor].
  - intros k e [H | []]. inversion H. reflexivity.
Qed.

Lemma killed_enemy_is_gone_witness :
  lookup "p1" (Server.players last_stand) = Some fresh_player /\
  lookup "e4" (Server.enemies (Server.handleAttack "p1" last_stand)) = None /\
  lookup "e4" (GameState.enemies (getGameState (Server.handleAttack "p1" last_stand)))
    = None.
Proof.
  split; [reflexivity|].
  destruct (killed_enemy_is_gone "p1" last_stand fresh_player [] [] "e4" weak_slime)
    as (Htable & Hsnap & _); try reflexivity.
  - exact one_player_keys.
  - exact last_stand_wf.
  - rewrite (getDistance_eq _ _ 20); [lra|lra|].
    cbv [weak_slime slime fresh_player Enemy.with_health Enemy.new Player.new
         Enemy.position Player.position Vec2.x Vec2.y]. lra.
  - intros q [].
  - intros q [].
  - exact (conj Htable Hsnap).
Defined.

Lemma spawn_fold (draw : nat -> string * Vec2.t) (l : list nat)
    (acc : list (string * Enemy.t)) :
  NoDup (List.map fst acc ++ List.map (fun i => fst (draw i)) l) ->
  fold_left
    (fun es i =>
       let enemy := Enemy.new (fst (draw i)) (snd (draw i)) in
       assign (Enemy.id enemy) enemy es) l acc
  = (acc ++ List.map
              (fun i => (fst (draw i), Enemy.new (fst (draw i)) (snd (draw i)))) l)%list.
Proof.
  revert acc. induction l as [|i l IH]; intros acc Hnodup; cbn [fold_left List.map].
  - rewrite app_nil_r. reflexivity.
  - cbn [List.map] in Hnodup.
    destruct (NoDup_app_head _ _ _ Hnodup) as [Hfresh Hrest].
    cbv zeta. cbn [Enemy.id Enemy.new].
    rewrite assign_fresh by exact Hfresh.
    rewrite IH.
    + rewrite <- app_assoc. reflexivity.
    + rewrite map_app. exact Hrest.
Qed.

Lemma alive_count_app (es es' : list (string * Enemy.t)) :
  alive_count (es ++ es') = (alive_count es + alive_count es')%nat.
Proof.
  unfold alive_count. rewrite filter_app, length_app. reflexivity.
Qed.

Lemma alive_count_spawned (draw : nat -> string * Vec2.t) (l : list nat) :
  alive_count
    (List.map (fun i => (fst (draw i), Enemy.new (fst (draw i)) (snd (draw i)))) l)
  = List.length l.
Proof.
  unfold alive_count. induction l as [|i l IH]; cbn; [reflexivity|].
  f_equal. exact IH.
Qed.

(** X18.  [spawnEnemies] does nothing when five or more enemies are
    alive.  Otherwise, when the ids it draws are new and distinct, it
    appends [5 - alive] fresh enemies (health 30, alive, idle, no target)
    after the entries of the table, which stay as they were; the table
    then holds exactly five alive enemies and is still well formed. *)
Theorem spawnEnemies_refills :
  forall (draw : nat -> string * Vec2.t) (w : Server.World),
    enemies_wf (Server.enemies w) ->
    NoDup
      (List.map fst (Server.enemies w)
       ++ List.map (fun i => fst (draw i))
            (seq 0 (5 - alive_count (Server.enemies w)))) ->
    Server.players (spawnEnemies draw w) = Server.players w /\
    Server.enemies (spawnEnemies draw w) =
      (Server.enemies w
       ++ List.map
            (fun i => (fst (draw i), Enemy.new (fst (draw i)) (snd (draw i))))
            (seq 0 (5 - alive_count (Server.enemies w))))%list /\
    alive_count (Server.enemies (spawnEnemies draw w))
      = Nat.max 5 (alive_count (Server.enemies w)) /\
    enemies_wf (Server.enemies (spawnEnemies draw w)) /\
    ((5 <= alive_count (Server.enemies w))%nat -> spawnEnemies draw w = w).
Proof.
  intros draw w Hwf Hfresh.
  assert (Hn : Z.to_nat (MAX_ENEMIES - Z.of_nat (alive_count (Server.enemies w)))
               = (5 - alive_count (Server.enemies w))%nat).
  { unfold MAX_ENEMIES. lia. }
  assert (Hes :
    Server.enemies (spawnEnemies draw w) =
    (Server.enemies w
     ++ List.map
          (fun i => (fst (draw i), Enemy.new (fst (draw i)) (snd (draw i))))
          (seq 0 (5 - alive_count (Server.enemies w))))%list).
  { unfold spawnEnemies. cbn [Server.enemies].
    fold (alive_count (Server.enemies w)). rewrite Hn.
    apply spawn_fold. exact Hfresh. }
  split; [reflexivity|]. split; [exact Hes|]. split; [|split].
  - rewrite Hes, alive_count_app, alive_count_spawned, length_seq. lia.
  - rewrite Hes. destruct Hwf as [Hnodup Hid]. split.
    + rewrite map_app, map_map. cbn [fst]. exact Hfresh.
    + intros k e Hin. apply in_app_or in Hin. destruct Hin as [Hin | Hin].
      * exact (Hid k e Hin).
      * apply in_map_iff in Hin. destruct Hin as (i & Heq & _).
        injection Heq as <- <-. reflexivity.
  - intros Hfull. destruct w as [ps es]. unfold spawnEnemies.
    cbn [Server.players Server.enemies] in *.
    fold (alive_count es). rewrite Hn.
    replace (5 - alive_count es)%nat with 0%nat by lia. reflexivity.
Qed.

Lemma spawnEnemies_refills_witness :
  enemies_wf (Server.enemies arena) /\
  alive_count (Server.enemies (spawnEnemies tagged_draw arena))
    = Nat.max 5 (alive_count (Server.enemies arena)) /\
  enemies_wf (Server.enemies (spawnEnemies tagged_draw arena)).
Proof.
  split; [exact arena_wf|].
  destruct (spawnEnemies_refills tagged_draw arena arena_wf) as (_ & _ & Hc & Hw & _).
  - change (NoDup ["e4"; "n"; "nn"; "nnn"; "nnnn"]).
    repeat constructor; cbn; intuition discriminate.
  - exact (conj Hc Hw).
Defined.

Lemma lookup_delete {A : Type} (key : string) (table : list (string * A)) :
  lookup key (delete key table) = None.
Proof.
  induction table as [|[k w] table IH]; cbn; [reflexivity|].
  destruct (String.eqb_spec k key) as [->|Hk]; cbn [negb]; [exact IH|].
  cbn. destruct (String.eqb_spec k key); [contradiction|exact IH].
Qed.

Lemma lookup_delete_other {A : Type} (key key' : string)
    (table : list (string * A)) :
  key' <> key -> lookup key' (delete key table) = lookup key' table.
Proof.
  intros Hne. induction table as [|[k w] table IH]; cbn; [reflexivity|].
  destruct (String.eqb_spec k key) as [->|Hk]; cbn [negb].
  - destruct (String.eqb_spec key key'); [congruence|exact IH].
  - cbn. destruct (k =? key'); [reflexivity|exact IH].
Qed.

Lemma setInput_only_buffer (input : PlayerInput.t) (p : Player.t) :
  Player.setInput input p
  = Player.with_currentInput (Player.currentInput (Player.setInput input p)) p.
Proof.
  unfold Player.setInput.
  destruct (is_attack (PlayerInput.action (Player.currentInput p))); reflexivity.
Qed.

Lemma with_currentInput_same (p : Player.t) :
  p = Player.with_currentInput (Player.currentInput p) p.
Proof. destruct p. reflexivity. Qed.

(** X19.  The [playerInput] handler leaves the enemies and both socket
    tables as they were and keeps the keys of the player table; every
    player afterwards is a player of the table before with at most the
    input buffer replaced, and only the player bound to the socket under
    a non-empty id is changed: it becomes [setInput(input)] of itself.
    The [disconnect] handler of a socket bound to a non-empty id removes
    that player and both socket-table entries and leaves the other
    players; for a socket that is not bound, or bound to the empty id, it
    does nothing.  It never touches the enemies, and an input that
    arrives on the socket afterwards is dropped. *)
Theorem socket_handlers :
  forall (socketId : string) (input : PlayerInput.t) (st : ServerState),
    Server.enemies (world (onPlayerInput socketId input st))
      = Server.enemies (world st) /\
    socketIdToPlayerId (onPlayerInput socketId input st) = socketIdToPlayerId st /\
    playerIdToSocketId (onPlayerInput socketId input st) = playerIdToSocketId st /\
    List.map fst (Server.players (world (onPlayerInput socketId input st)))
      = List.map fst (Server.players (world st)) /\
    (forall k p',
        lookup k (Server.players (world (onPlayerInput socketId input st)))
          = Some p' ->
        exists p,
          lookup k (Server.players (world st)) = Some p /\
          p' = Player.with_currentInput (Player.currentInput p') p /\
          (p' = p \/
           (lookup socketId (socketIdToPlayerId st) = Some k /\ k <> "" /\
            p' = Player.setInput input p))) /\
    (forall pid p,
        lookup socketId (socketIdToPlayerId st) = Some pid ->
        pid <> "" ->
        lookup pid (Server.players (world st)) = Some p ->
        lookup pid (Server.players (world (onPlayerInput socketId input st)))
          = Some (Player.setInput input p)) /\
    (forall pid,
        lookup socketId (socketIdToPlayerId st) = Some pid ->
        pid <> "" ->
        lookup pid (Server.players (world (onDisconnect socketId st))) = None /\
        lookup socketId (socketIdToPlayerId (onDisconnect socketId st)) = None /\
        lookup pid (playerIdToSocketId (onDisconnect socketId st)) = None /\
        forall k, k <> pid ->
          lookup k (Server.players (world (onDisconnect socketId st)))
          = lookup k (Server.players (world st))) /\
    (lookup socketId (socketIdToPlayerId st) = None \/
     lookup socketId (socketIdToPlayerId st) = Some "" ->
     onDisconnect socketId st = st) /\
    Server.enemies (world (onDisconnect socketId st)) = Server.enemies (world st) /\
    onPlayerInput socketId input (onDisconnect socketId st)
      = onDisconnect socketId st.
Proof.
  intros socketId input st.
  assert (Hsame : forall k p',
    lookup k (Server.players (world st)) = Some p' ->
    exists p,
      lookup k (Server.players (world st)) = Some p /\
      p' = Player.with_currentInput (Player.currentInput p') p /\
      (p' = p \/
       (lookup socketId (socketIdToPlayerId st) = Some k /\ k <> "" /\
        p' = Player.setInput input p))).
  { intros k p' H. exists p'. split; [exact H|].
    split; [apply with_currentInput_same|left; reflexivity]. }
  assert (Hinput :
    Server.enemies (world (onPlayerInput socketId input st))
      = Server.enemies (world st) /\
    socketIdToPlayerId (onPlayerInput socketId input st) = socketIdToPlayerId st /\
    playerIdToSocketId (onPlayerInput socketId input st) = playerIdToSocketId st /\
    List.map fst (Server.players (world (onPlayerInput socketId input st)))
      = List.map fst (Server.players (world st)) /\
    (forall k p',
        lookup k (Server.players (world (onPlayerInput socketId input st)))
          = Some p' ->
        exists p,
          lookup k (Server.players (world st)) = Some p /\
          p' = Player.with_currentInput (Player.currentInput p') p /\
          (p' = p \/
           (lookup socketId (socketIdToPlayerId st) = Some k /\ k <> "" /\
            p' = Player.setInput input p)))).
  { unfold onPlayerInput.
    destruct (lookup socketId (socketIdToPlayerId st)) as [pid|] eqn:Hpid;
      [|repeat (split; [reflexivity|]); exact Hsame].
    destruct (truthy_str (Some pid)) eqn:Htruthy;
      [|repeat (split; [reflexivity|]); exact Hsame].
    destruct (lookup pid (Server.players (world st))) as [player|] eqn:Hlook;
      [|repeat (split; [reflexivity|]); exact Hsame].
    cbn [world Server.players Server.enemies socketIdToPlayerId playerIdToSocketId].
    repeat (split; [reflexivity|]). split; [apply store_keys|].
    intros k p'. destruct (string_dec k pid) as [->|Hk].
    - rewrite (lookup_store pid player _ _ Hlook). intros [= <-].
      exists player. split; [exact Hlook|].
      split; [apply setInput_only_buffer|]. right.
      split; [reflexivity|]. split; [|reflexivity].
      intros ->. discriminate Htruthy.
    - rewrite lookup_store_other by exact Hk. intros H.
      destruct (Hsame k p' H) as (p & Hp & Hbuf & _).
      exists p. split; [exact Hp|]. split; [exact Hbuf|]. left. congruence. }
  destruct Hinput as (Hi1 & Hi2 & Hi3 & Hi4 & Hi5).
  split; [exact Hi1|]. split; [exact Hi2|]. split; [exact Hi3|].
  split; [exact Hi4|]. split; [exact Hi5|].
  split; [|split; [|split; [|split]]].
  - intros pid p Hpid Hne Hlook. unfold onPlayerInput.
    rewrite Hpid, truthy_str_some, Hlook by exact Hne.
    cbn [world Server.players]. exact (lookup_store pid p _ _ Hlook).
  - intros pid Hpid Hne. unfold onDisconnect.
    rewrite Hpid, truthy_str_some by exact Hne.
    cbn [world Server.players socketIdToPlayerId playerIdToSocketId].
    split; [apply lookup_delete|]. split; [apply lookup_delete|].
    split; [apply lookup_delete|].
    intros k Hk. apply lookup_delete_other. exact Hk.
  - unfold onDisconnect. intros [-> | ->]; reflexivity.
  - unfold onDisconnect.
    destruct (lookup socketId (socketIdToPlayerId st)) as [pid|]; [|reflexivity].
    destruct (truthy_str (Some pid)); reflexivity.
  - unfold onDisconnect.
    destruct (lookup socketId (socketIdToPlayerId st)) as [pid|] eqn:Hpid.
    + destruct (truthy_str (Some pid)) eqn:Htruthy.
      * unfold onPlayerInput. cbn [socketIdToPlayerId].
        rewrite lookup_delete. reflexivity.
      * unfold onPlayerInput. rewrite Hpid, Htruthy. reflexivity.
    + unfold onPlayerInput. rewrite Hpid. reflexivity.
Qed.

Lemma setInput_all_isAttacking_any (inputs : list PlayerInput.t) (p : Player.t) :
  Player.isAttacking (setInput_all inputs p) =
  Player.isAttacking p || existsb (fun i => is_attack (PlayerInput.action i)) inputs.
Proof.
  unfold setInput_all. revert p.
  induction inputs as [|i inputs IH]; intros p; cbn [fold_left existsb].
  - rewrite orb_false_r. reflexivity.
  - rewrite IH, setInput_isAttacking, orb_assoc. reflexivity.
Qed.

(** X20.  If any message of the batch a player sent since the last tick
    set "attack", the player step of the tick runs [handleAttack] for
    that player, whatever the later messages of the batch say, and then
    empties the buffer. *)
Theorem attack_in_batch_reaches_combat :
  forall (mapLoader : MapLoader.t) (w : Server.World) (playerId : string)
         (player : Player.t) (inputs : list PlayerInput.t),
    lookup playerId (Server.players w) = Some player ->
    existsb (fun i => is_attack (PlayerInput.action i)) inputs = true ->
    Server.enemies
      (Server.updatePlayer mapLoader
         (Server.mkWorld
            (store playerId (setInput_all inputs player) (Server.players w))
            (Server.enemies w))
         playerId)
    = Server.enemies
        (Server.handleAttack playerId
           (Server.mkWorld
              (store playerId (setInput_all inputs player) (Server.players w))
              (Server.enemies w))) /\
    (forall p,
        lookup playerId
          (Server.players
             (Server.updatePlayer mapLoader
                (Server.mkWorld
                   (store playerId (setInput_all inputs player) (Server.players w))
                   (Server.enemies w))
                playerId))
          = Some p ->
        Player.isAttacking p = false).
Proof.
  intros mapLoader w playerId player inputs Hlook Hany.
  set (w' := Server.mkWorld
               (store playerId (setInput_all inputs player) (Server.players w))
               (Server.enemies w)).
  assert (Hlook' : lookup playerId (Server.players w')
                   = Some (setInput_all inputs player)).
  { exact (lookup_store playerId player _ _ Hlook). }
  split.
  - rewrite (updatePlayer_enemies mapLoader w' playerId _ Hlook').
    rewrite setInput_all_isAttacking_any, Hany, orb_true_r. reflexivity.
  - intros p Hp.
    destruct (updatePlayer_players mapLoader w' playerId) as (_ & _ & Hdone).
    unfold Player.isAttacking. rewrite (Hdone p Hp). reflexivity.
Qed.

Lemma attack_in_batch_reaches_combat_witness :
  lookup "p1" (Server.players arena) = Some fresh_player /\
  Server.enemies
    (Server.updatePlayer open_map
       (Server.mkWorld
          (store "p1" (setInput_all [msg_attack; msg_idle] fresh_player)
             (Server.players arena))
          (Server.enemies arena))
       "p1")
  = Server.enemies
      (Server.handleAttack "p1"
         (Server.mkWorld
            (store "p1" (setInput_all [msg_attack; msg_idle] fresh_player)
               (Server.players arena))
            (Server.enemies arena))).
Proof.
  split; [reflexivity|].
  apply (attack_in_batch_reaches_combat open_map arena "p1" fresh_player
           [msg_attack; msg_idle] eq_refl eq_refl).
Defined.
